(** * Task list manager (src/app.ts): Task and TaskManager

    A shallow embedding of the two classes of [src/app.ts] and the
    properties of its specification.

    - Strings are Rocq strings holding the UTF-8 bytes of the text.
    - A JavaScript exception is a [Throw] result; a method that mutates
      [this] before it throws returns the mutated object next to the
      exception, as the caller of the method observes it.
    - Arrays are objects of a heap, so that an array which is copied and an
      array which is written in place are told apart.
    - What the JavaScript runtime provides ([String.prototype.trim],
      [Date.parse], [JSON.parse], ...) is an interface, [JSRuntime]; the
      development holds for every runtime, and [Reference.runtime] is one
      that computes. *)

From stdpp Require Import base option list gmap strings pretty sorting.
From Stdlib Require Import ZArith Lia Ascii.

Local Open Scope string_scope.
Local Open Scope Z_scope.

(** ** Exceptions and results *)

Inductive exn :=
  | Error (message : string)
  | RangeError
  | SyntaxError
  | TypeError.

Inductive Result (A : Type) :=
  | Ok (a : A)
  | Throw (e : exn).
Arguments Ok {A} a.
Arguments Throw {A} e.

Global Instance exn_eq_dec : EqDecision exn.
Proof. solve_decision. Defined.

Global Instance Result_eq_dec `{EqDecision A} : EqDecision (Result A).
Proof. solve_decision. Defined.

Global Instance Result_ret : MRet Result := λ A a, Ok a.
Global Instance Result_bind : MBind Result := λ A B f r,
  match r with Ok a => f a | Throw e => Throw e end.

(** [M S A]: a method body running on a mutable state [S].  The state
    reached is returned also when the body throws. *)
Definition M (S A : Type) : Type := S → Result A * S.

Definition ret {S A} (a : A) : M S A := λ s, (Ok a, s).
Definition bind {S A B} (m : M S A) (f : A → M S B) : M S B := λ s,
  match m s with
  | (Ok a, s') => f a s'
  | (Throw e, s') => (Throw e, s')
  end.
Definition throw {S A} (e : exn) : M S A := λ s, (Throw e, s).
Definition try_catch {S A} (body : M S A) (handler : exn → M S A) : M S A := λ s,
  match body s with
  | (Ok a, s') => (Ok a, s')
  | (Throw e, s') => handler e s'
  end.
Definition get {S} : M S S := λ s, (Ok s, s).
Definition modify {S} (f : S → S) : M S unit := λ s, (Ok tt, f s).
Definition lift {S A} (r : Result A) : M S A := λ s, (r, s).
Definition when {S} (c : bool) (m : M S unit) : M S unit :=
  if c then m else ret tt.

Declare Scope js_scope.
Delimit Scope js_scope with js.
Notation "'let!' x ':=' m 'in' k" := (bind m (λ x, k))
  (at level 10, x pattern, m at level 100, k at level 200) : js_scope.
Notation "m ';;;' k" := (bind m (λ _, k))
  (at level 100, k at level 200, right associativity) : js_scope.

(** ** The runtime interface *)

(** A [Date] object: a time value in milliseconds since the epoch, or the
    Invalid Date that [new Date(s)] builds from a string it cannot parse. *)
Inductive Date :=
  | Valid (ms : Z)
  | Invalid.

Global Instance Date_eq_dec : EqDecision Date.
Proof. solve_decision. Defined.

(** A JavaScript number restricted to what the comparators compute:
    an integer, or NaN. *)
Inductive number :=
  | Num (n : Z)
  | NaN.

Definition sub (a b : number) : number :=
  match a, b with
  | Num x, Num y => Num (x - y)
  | _, _ => NaN
  end.

(** [interface TaskData] *)
Record TaskData := mkTaskData {
  d_id : string;
  d_title : string;
  d_description : string;
  d_status : string;
  d_priority : string;
  d_createdAt : string;
  d_color : option string;   (* [None]: the member is absent *)
}.

Global Instance TaskData_eq_dec : EqDecision TaskData.
Proof. solve_decision. Defined.

Class JSRuntime := {
  (** [String.prototype.trim] *)
  trim : string → string;
  (** [String.prototype.toLowerCase] *)
  toLowerCase : string → string;
  (** [String.prototype.includes] *)
  includes : string → string → bool;
  (** [String.prototype.localeCompare] *)
  localeCompare : string → string → Z;
  (** [Date.prototype.toISOString] on a valid time value *)
  iso_of_ms : Z → string;
  (** [new Date(s)] *)
  Date_of_string : string → Date;
  (** [JSON.stringify] on an array of task records *)
  JSON_stringify : list TaskData → string;
  (** [JSON.parse] read at the type [TaskData[]]: [Throw SyntaxError] for
      text that is not JSON, [Throw TypeError] for a value that cannot be
      mapped over *)
  JSON_parse : string → Result (list TaskData);
}.

(** What the constructor of [Task] reads from its environment. *)
Record Env := mkEnv {
  Date_now : Z;             (* Date.now() in generateId *)
  Math_random_36 : string;  (* Math.random().toString(36) *)
  new_Date : Z;             (* new Date() *)
}.

(** ** class Task *)

Record Task := mkTask {
  id : string;
  title : string;
  description : string;
  status : string;
  priority : string;
  createdAt : Date;
  color : option string;   (* [None]: the property holds [undefined] *)
}.

Global Instance Task_eq_dec : EqDecision Task.
Proof. solve_decision. Defined.

(** [interface PartialTaskData]: [None] is an absent ([undefined]) field. *)
Record PartialTaskData := mkPartial {
  p_title : option string;
  p_description : option string;
  p_status : option string;
  p_priority : option string;
}.

Definition validStatuses : list string :=
  ["à faire"; "en cours"; "terminée"; "bloquée"].

Definition colorMap : gmap string string :=
  {[ "à faire" := "#3498db"; "en cours" := "#f39c12";
     "terminée" := "#27ae60"; "bloquée" := "#e74c3c" ]}.

Definition msg_title : string := "Le titre de la tâche ne peut pas être vide".
Definition msg_status : string :=
  "Statut invalide. Les statuts autorisés sont : à faire, en cours, terminée, bloquée".

(** [!s] on a string *)
Definition falsy (s : string) : bool := bool_decide (s = "").

Section task.
Context `{!JSRuntime}.

(** [!title || title.trim().length === 0] *)
Definition blank (title : string) : bool :=
  falsy title || bool_decide (String.length (trim title) = 0%nat).

Definition validateInputs (title status : string) : Result unit :=
  if blank title then Throw (Error msg_title)
  else if negb (bool_decide (status ∈ validStatuses)) then Throw (Error msg_status)
  else Ok tt.

(** [substr(start, length)] is [String.substring] of the Standard Library. *)
Definition generateId (e : Env) : string :=
  "task_" +:+ pretty (Date_now e) +:+ "_" +:+ String.substring 2 9 (Math_random_36 e).

(** [colorMap[status]], read among the four keys of the object literal: the
    method is called with a status that [validateInputs] has accepted. *)
Definition getColorByStatus (status : string) : option string :=
  colorMap !! status.

(** [new Task(title, description = '', status = 'à faire', priority = 'moyenne')];
    [None] is an argument left out. *)
Definition Task_new (e : Env) (title : string)
    (description status priority : option string) : Result Task :=
  let description := default "" description in
  let status := default "à faire" status in
  let priority := default "moyenne" priority in
  _ ← validateInputs title status;
  Ok {| id := generateId e;
        title := trim title;
        description := trim description;
        status := status;
        priority := priority;
        createdAt := Valid (new_Date e);
        color := getColorByStatus status |}.

(** Assignments [this.f = v]. *)
Definition set_id (v : string) (t : Task) : Task :=
  mkTask v (title t) (description t) (status t) (priority t) (createdAt t) (color t).
Definition set_title (v : string) (t : Task) : Task :=
  mkTask (id t) v (description t) (status t) (priority t) (createdAt t) (color t).
Definition set_description (v : string) (t : Task) : Task :=
  mkTask (id t) (title t) v (status t) (priority t) (createdAt t) (color t).
Definition set_status (v : string) (t : Task) : Task :=
  mkTask (id t) (title t) (description t) v (priority t) (createdAt t) (color t).
Definition set_priority (v : string) (t : Task) : Task :=
  mkTask (id t) (title t) (description t) (status t) v (createdAt t) (color t).
Definition set_createdAt (v : Date) (t : Task) : Task :=
  mkTask (id t) (title t) (description t) (status t) (priority t) v (color t).
Definition set_color (v : option string) (t : Task) : Task :=
  mkTask (id t) (title t) (description t) (status t) (priority t) (createdAt t) v.

(** [if (x !== undefined) { ... }] *)
Definition if_defined {S A} (x : option A) (body : A → M S unit) : M S unit :=
  match x with Some a => body a | None => ret tt end.

Definition update (partialData : PartialTaskData) : M Task unit :=
  (if_defined (p_title partialData) (λ title,
     if blank title then throw (Error msg_title)
     else modify (set_title (trim title)));;;
   if_defined (p_description partialData) (λ description,
     modify (set_description (trim description)));;;
   if_defined (p_status partialData) (λ status,
     if negb (bool_decide (status ∈ validStatuses)) then throw (Error msg_status)
     else (modify (set_status status);;;
           modify (set_color (getColorByStatus status))));;;
   if_defined (p_priority partialData) (λ priority,
     modify (set_priority priority)))%js.

(** [Date.prototype.toISOString]: a RangeError on an Invalid Date. *)
Definition toISOString (d : Date) : Result string :=
  match d with
  | Valid ms => Ok (iso_of_ms ms)
  | Invalid => Throw RangeError
  end.

Definition toJSON (t : Task) : Result TaskData :=
  iso ← toISOString (createdAt t);
  Ok {| d_id := id t;
        d_title := title t;
        d_description := description t;
        d_status := status t;
        d_priority := priority t;
        d_createdAt := iso;
        d_color := color t |}.

Definition fromJSON (e : Env) (data : TaskData) : Result Task :=
  task ← Task_new e (d_title data) (Some (d_description data))
                  (Some (d_status data)) (Some (d_priority data));
  let task := set_id (d_id data) task in
  let task := set_createdAt (Date_of_string (d_createdAt data)) task in
  let task := set_color (d_color data) task in
  Ok task.

End task.

(** ** Arrays *)

(** [Array.prototype.sort(comparefn)]: in place and stable.  A comparator
    result that is NaN counts as [+0].  The model is the stable insertion
    sort; every stable sort returns the same array when the comparator is
    consistent, and ECMAScript leaves the order to the engine otherwise. *)
Definition sort_order {A} (comparefn : A → A → number) (a b : A) : Z :=
  match comparefn a b with Num v => v | NaN => 0 end.

Fixpoint sort_insert {A} (comparefn : A → A → number) (x : A) (l : list A) : list A :=
  match l with
  | [] => [x]
  | y :: l' =>
      if Z.leb (sort_order comparefn x y) 0 then x :: y :: l'
      else y :: sort_insert comparefn x l'
  end.

Definition sort {A} (comparefn : A → A → number) (l : list A) : list A :=
  foldr (sort_insert comparefn) [] l.

(** [Array.prototype.findIndex]: the first index whose element satisfies the
    predicate, [-1] when there is none. *)
Definition findIndex {A} (P : A → Prop) `{!∀ x, Decision (P x)} (l : list A) : Z :=
  match list_find P l with
  | Some (i, _) => Z.of_nat i
  | None => -1
  end.

(** ** class TaskManager *)

Definition loc := positive.

Record TaskManager := mkTaskManager {
  tasks : loc;              (* the array [this.tasks] refers to *)
  currentFilter : string;
  currentSearch : string;
  currentSort : string;
}.

(** The arrays of tasks allocated so far, the manager, and the entry
    ['tasks'] of [localStorage] ([None]: [getItem] returns [null]). *)
Record World := mkWorld {
  heap : gmap loc (list Task);
  this : TaskManager;
  localStorage : option string;
}.

Definition set_heap (h : gmap loc (list Task)) (w : World) : World :=
  mkWorld h (this w) (localStorage w).
Definition set_this (m : TaskManager) (w : World) : World :=
  mkWorld (heap w) m (localStorage w).
Definition set_localStorage (v : option string) (w : World) : World :=
  mkWorld (heap w) (this w) v.

Definition set_tasks (l : loc) (m : TaskManager) : TaskManager :=
  mkTaskManager l (currentFilter m) (currentSearch m) (currentSort m).
Definition set_currentFilter (v : string) (m : TaskManager) : TaskManager :=
  mkTaskManager (tasks m) v (currentSearch m) (currentSort m).
Definition set_currentSearch (v : string) (m : TaskManager) : TaskManager :=
  mkTaskManager (tasks m) (currentFilter m) v (currentSort m).
Definition set_currentSort (v : string) (m : TaskManager) : TaskManager :=
  mkTaskManager (tasks m) (currentFilter m) (currentSearch m) v.

(** The elements of the array at [l]. *)
Definition array (w : World) (l : loc) : list Task := default [] (heap w !! l).

(** A new array object. *)
Definition alloc (a : list Task) : M World loc := λ w,
  let l := fresh (dom (heap w)) in
  (Ok l, set_heap (<[l := a]> (heap w)) w).
Definition read (l : loc) : M World (list Task) := λ w, (Ok (array w l), w).
Definition write (l : loc) (a : list Task) : M World unit :=
  modify (λ w, set_heap (<[l := a]> (heap w)) w).

(** [[...a]] *)
Definition array_copy (l : loc) : M World loc :=
  (let! a := read l in alloc a)%js.
(** [a.filter(P)] *)
Definition array_filter (P : Task → Prop) `{!∀ x, Decision (P x)} (l : loc) : M World loc :=
  (let! a := read l in alloc (filter P a))%js.
(** [a.sort(comparefn)] *)
Definition array_sort (comparefn : Task → Task → number) (l : loc) : M World unit :=
  (let! a := read l in write l (sort comparefn a))%js.

Definition getTime (d : Date) : number :=
  match d with Valid ms => Num ms | Invalid => NaN end.

Definition priorityOrder : gmap string Z :=
  {[ "haute" := 3; "moyenne" := 2; "basse" := 1 ]}.

(** [priorityOrder[p]]; the difference with [undefined] is NaN. *)
Definition priority_rank (p : string) : number :=
  match priorityOrder !! p with Some n => Num n | None => NaN end.

Section manager.
Context `{!JSRuntime}.

(** The comparator of [getFilteredTasks]. *)
Definition compareTasks (currentSort : string) (a b : Task) : number :=
  match currentSort with
  | "date-asc" => sub (getTime (createdAt a)) (getTime (createdAt b))
  | "date-desc" => sub (getTime (createdAt b)) (getTime (createdAt a))
  | "title-asc" => Num (localeCompare (title a) (title b))
  | "title-desc" => Num (localeCompare (title b) (title a))
  | "priority-desc" => sub (priority_rank (priority b)) (priority_rank (priority a))
  | "priority-asc" => sub (priority_rank (priority a)) (priority_rank (priority b))
  | _ => Num 0
  end.

Definition getFilteredTasks : M World loc :=
  (let! w := get in
   let m := this w in
   let! filteredTasks := array_copy (tasks m) in
   let! filteredTasks :=
     (if bool_decide (currentFilter m ≠ "all")
      then array_filter (λ task, status task = currentFilter m) filteredTasks
      else ret filteredTasks) in
   let! filteredTasks :=
     (if negb (falsy (currentSearch m))
      then array_filter (λ task,
             includes (toLowerCase (title task)) (currentSearch m) ||
             includes (toLowerCase (description task)) (currentSearch m))
           filteredTasks
      else ret filteredTasks) in
   when (bool_decide (currentSort m ≠ "manual"))
     (array_sort (compareTasks (currentSort m)) filteredTasks);;;
   ret filteredTasks)%js.

(** [updateUI] computes the statistics and the filtered view and writes
    them to the elements of the document, which is not part of [World]. *)
Definition updateUI : M World unit :=
  (let! _ := getFilteredTasks in ret tt)%js.

Definition filterByStatus (status : string) : M World loc :=
  (modify (λ w, set_this (set_currentFilter status (this w)) w);;;
   updateUI;;;
   getFilteredTasks)%js.

Definition search (text : string) : M World loc :=
  (modify (λ w, set_this (set_currentSearch (toLowerCase text) (this w)) w);;;
   updateUI;;;
   getFilteredTasks)%js.

(** [Array.prototype.map] with a callback that may throw. *)
Fixpoint map_result {A B} (f : A → Result B) (l : list A) : Result (list B) :=
  match l with
  | [] => Ok []
  | x :: l' => y ← f x; ys ← map_result f l'; Ok (y :: ys)
  end.

Definition save : M World unit :=
  try_catch
    (let! w := get in
     let! tasksData := lift (map_result toJSON (array w (tasks (this w)))) in
     modify (set_localStorage (Some (JSON_stringify tasksData))))%js
    (λ error, ret tt).

(** [e]: what the constructor called by [Task.fromJSON] reads. *)
Definition load (e : Env) : M World unit :=
  try_catch
    (let! w := get in
     match localStorage w with
     | Some savedTasks =>
         if negb (falsy savedTasks) then
           let! tasksData := lift (JSON_parse savedTasks) in
           let! a := lift (map_result (fromJSON e) tasksData) in
           let! l := alloc a in
           modify (λ w, set_this (set_tasks l (this w)) w)
         else ret tt
     | None => ret tt
     end)%js
    (λ error,
     let! l := alloc [] in
     modify (λ w, set_this (set_tasks l (this w)) w))%js.

(** The field initializers of the class, which run before the body of the
    constructor: [tasks = []], [currentFilter = 'all'], [currentSearch = ''],
    [currentSort = 'date-desc']. *)
Definition TaskManager_fields : M World unit :=
  (let! l := alloc [] in
   modify (set_this (mkTaskManager l "all" "" "date-desc")))%js.

(** In [reorderTasks] both indices come from [findIndex] and are not [-1],
    so they are in range and the two reads yield a task. *)
Definition reorderTasks (draggedId targetId : string) : M World unit :=
  (let! w := get in
   let l := tasks (this w) in
   let draggedIndex := findIndex (λ task, id task = draggedId) (array w l) in
   let targetIndex := findIndex (λ task, id task = targetId) (array w l) in
   if bool_decide (draggedIndex = -1) || bool_decide (targetIndex = -1) then ret tt
   else
     match array w l !! Z.to_nat draggedIndex, array w l !! Z.to_nat targetIndex with
     | Some draggedTask, Some targetTask =>
         write l (<[Z.to_nat draggedIndex := targetTask]> (array w l));;;
         (let! w := get in
          write l (<[Z.to_nat targetIndex := draggedTask]> (array w l)));;;
         modify (λ w, set_this (set_currentSort "manual" (this w)) w);;;
         save;;;
         updateUI
     | _, _ => ret tt
     end)%js.

(** The guard of the [drop] handler, the only caller of [reorderTasks];
    [targetId] is [target.dataset['id']], which may be [undefined]. *)
Definition onDrop (draggedId : string) (targetId : option string) : M World unit :=
  match targetId with
  | Some targetId =>
      if negb (falsy draggedId) && negb (falsy targetId)
         && bool_decide (draggedId ≠ targetId)
      then reorderTasks draggedId targetId
      else ret tt
  | None => ret tt
  end.

End manager.

(** ** TaskManager: the collection and the commands of the page *)

(** [Array.prototype.indexOf] on strings *)
Definition indexOf (l : list string) (x : string) : Z :=
  findIndex (λ y, y = x) l.

(** [Array.prototype.forEach] *)
Fixpoint forEach {A} (f : A → M World unit) (l : list A) : M World unit :=
  match l with
  | [] => ret tt
  | x :: l' => (f x;;; forEach f l')%js
  end.

(** [a.push(task)] *)
Definition array_push (l : loc) (task : Task) : M World unit :=
  (let! a := read l in write l (a ++ [task]))%js.

(** A method called on the task object at index [i] of the array [l]: the
    object is mutated where it is, also when the method throws.  The
    elements of [this.tasks] are distinct objects: [load] and
    [addSampleData] build every task they store, and the page calls [add]
    with a task it has just built. *)
Definition call_on {A} (l : loc) (i : nat) (task : Task) (m : M Task A) : M World A := λ w,
  let '(r, task') := m task in
  (r, set_heap (<[l := <[i := task']> (array w l)]> (heap w)) w).

Section collection.
Context `{!JSRuntime}.

Definition add (task : Task) : M World Task :=
  (let! w := get in
   array_push (tasks (this w)) task;;;
   save;;;
   updateUI;;;
   ret task)%js.

Definition getAll : M World loc :=
  (let! w := get in array_copy (tasks (this w)))%js.

(** [findById] returns the task object itself: its index in [this.tasks]
    and its fields; [None] is [undefined]. *)
Definition findById (id' : string) : M World (option (nat * Task)) :=
  (let! w := get in
   ret (list_find (λ task, id task = id') (array w (tasks (this w)))))%js.

(** [TaskManager.update]; [update] is the method of [Task]. *)
Definition TaskManager_update (id' : string) (partialData : PartialTaskData) :
    M World bool :=
  (let! found := findById id' in
   match found with
   | None => ret false
   | Some (i, task) =>
       try_catch
         (let! w := get in
          call_on (tasks (this w)) i task (update partialData);;;
          save;;;
          updateUI;;;
          ret true)
         (λ error, ret false)
   end)%js.

(** [splice(index, 1)] is [delete] on lists. *)
Definition remove (id' : string) : M World bool :=
  (let! w := get in
   let l := tasks (this w) in
   let index := findIndex (λ task, id task = id') (array w l) in
   if bool_decide (index = -1) then ret false
   else
     write l (delete (Z.to_nat index) (array w l));;;
     save;;;
     updateUI;;;
     ret true)%js.

(** [None] is the argument left out. *)
Definition sortByDate (order : option string) : M World loc :=
  (let order := default "desc" order in
   modify (λ w, set_this (set_currentSort ("date-" +:+ order) (this w)) w);;;
   updateUI;;;
   getFilteredTasks)%js.

Definition sortByTitle (order : option string) : M World loc :=
  (let order := default "asc" order in
   modify (λ w, set_this (set_currentSort ("title-" +:+ order) (this w)) w);;;
   updateUI;;;
   getFilteredTasks)%js.

Definition sortByPriority (order : option string) : M World loc :=
  (let order := default "desc" order in
   modify (λ w, set_this (set_currentSort ("priority-" +:+ order) (this w)) w);;;
   updateUI;;;
   getFilteredTasks)%js.

(** The object [stats] is a map from its own keys; [stats[status]] is
    looked up among them.  (The status of a task is never the name of a
    member of [Object.prototype]: the class only stores statuses of
    [validStatuses].) *)
Definition getStats : M World (gmap string Z) :=
  (let! w := get in
   let a := array w (tasks (this w)) in
   let stats : gmap string Z :=
     {[ "all" := Z.of_nat (length a); "à faire" := 0; "en cours" := 0;
        "terminée" := 0; "bloquée" := 0 ]} in
   ret (foldl (λ stats task,
                 let status := status task in
                 match stats !! status with
                 | Some n => <[status := n + 1]> stats
                 | None => stats
                 end) stats a))%js.

Definition clearAll : M World unit :=
  (let! l := alloc [] in
   modify (λ w, set_this (set_tasks l (this w)) w);;;
   save;;;
   updateUI)%js.

(** [es k] is what the constructor of the sample of index [k] reads. *)
Definition addSampleData (es : nat → Env) : M World unit :=
  (let! w := get in
   let l := tasks (this w) in
   if bool_decide (length (array w l) = 0%nat) then
     let! sampleTasks := lift (
       t0 ← Task_new (es 0%nat) "Créer une API REST"
              (Some "Développer une API avec Node.js et Express pour le projet")
              (Some "à faire") (Some "haute");
       t1 ← Task_new (es 1%nat) "Design de l'interface"
              (Some "Créer les maquettes et prototypes de l'application")
              (Some "en cours") (Some "moyenne");
       t2 ← Task_new (es 2%nat) "Tests unitaires"
              (Some "Écrire les tests pour toutes les fonctionnalités")
              (Some "à faire") (Some "haute");
       t3 ← Task_new (es 3%nat) "Documentation"
              (Some "Rédiger la documentation technique du projet")
              (Some "bloquée") (Some "basse");
       t4 ← Task_new (es 4%nat) "Déploiement"
              (Some "Mettre en production sur le serveur")
              (Some "terminée") (Some "moyenne");
       t5 ← Task_new (es 5%nat) "Réunion équipe"
              (Some "Préparer la réunion hebdomadaire avec l'équipe")
              (Some "à faire") (Some "basse");
       Ok [t0; t1; t2; t3; t4; t5]) in
     forEach (array_push l) sampleTasks;;;
     save
   else ret tt)%js.

(** [new TaskManager()]: the field initializers, then the body. *)
Definition TaskManager_new (e : Env) (es : nat → Env) : M World unit :=
  (TaskManager_fields;;;
   load e;;;
   addSampleData es)%js.

(** *** The commands of the page on the manager [taskManager] *)

Definition quickEditStatus (id' : string) : M World unit :=
  (let! found := findById id' in
   match found with
   | None => ret tt
   | Some (_, task) =>
       let statuses := ["à faire"; "en cours"; "terminée"; "bloquée"] in
       let currentIndex := indexOf statuses (status task) in
       let nextIndex := (currentIndex + 1) `mod` Z.of_nat (length statuses) in
       match statuses !! Z.to_nat nextIndex with
       | Some newStatus =>
           if negb (falsy newStatus)
           then let! _ := TaskManager_update id'
                            (mkPartial None None (Some newStatus) None) in
                ret tt
           else ret tt
       | None => ret tt
       end
   end)%js.

Definition quickEditPriority (id' : string) : M World unit :=
  (let! found := findById id' in
   match found with
   | None => ret tt
   | Some (_, task) =>
       let priorities := ["basse"; "moyenne"; "haute"] in
       let currentIndex := indexOf priorities (priority task) in
       let nextIndex := (currentIndex + 1) `mod` Z.of_nat (length priorities) in
       match priorities !! Z.to_nat nextIndex with
       | Some newPriority =>
           if negb (falsy newPriority)
           then let! _ := TaskManager_update id'
                            (mkPartial None None None (Some newPriority)) in
                ret tt
           else ret tt
       | None => ret tt
       end
   end)%js.

(** The [change] handler of the sort selector. *)
Definition onSortChange (sortValue : string) : M World unit :=
  (modify (λ w, set_this (set_currentSort sortValue (this w)) w);;;
   updateUI)%js.

End collection.

(** ** A runtime that computes

    [Reference.runtime] runs the model on concrete inputs.  It covers a
    part of what an engine accepts: white space is the ASCII white space and
    line terminators, letters are lowered in ASCII, strings are compared
    byte by byte, [new Date(s)] reads the format that [toISOString] writes,
    and [JSON.parse] reads the arrays of records that [JSON.stringify]
    writes. *)
Module Reference.

Definition code (c : ascii) : Z := Z.of_nat (nat_of_ascii c).

Definition is_space (c : ascii) : bool :=
  (code c =? 32) || ((9 <=? code c) && (code c <=? 13)).

Fixpoint trimStart (s : string) : string :=
  match s with
  | String c s' => if is_space c then trimStart s' else s
  | EmptyString => EmptyString
  end.

Fixpoint trimEnd (s : string) : string :=
  match s with
  | String c s' =>
      match trimEnd s' with
      | EmptyString => if is_space c then EmptyString else String c EmptyString
      | r => String c r
      end
  | EmptyString => EmptyString
  end.

Definition trim (s : string) : string := trimEnd (trimStart s).

Definition lower (c : ascii) : ascii :=
  if (65 <=? code c) && (code c <=? 90)
  then ascii_of_nat (nat_of_ascii c + 32) else c.

Fixpoint toLowerCase (s : string) : string :=
  match s with
  | String c s' => String (lower c) (toLowerCase s')
  | EmptyString => EmptyString
  end.

Fixpoint includes (s searchString : string) : bool :=
  String.prefix searchString s ||
  match s with
  | String _ s' => includes s' searchString
  | EmptyString => false
  end.

Definition localeCompare (a b : string) : Z :=
  match String.compare a b with Lt => -1 | Eq => 0 | Gt => 1 end.

(** *** Dates: ISO 8601 in UTC over the proleptic Gregorian calendar *)

(** The day [doe] of a cycle of 400 years that starts on the first of March:
    its year in the cycle, its month and its day of the month. *)
Definition civil_of_doe (doe : Z) : Z * Z * Z :=
  let yoe := (doe - doe / 1460 + doe / 36524 - doe / 146096) / 365 in
  let doy := doe - (365 * yoe + yoe / 4 - yoe / 100) in
  let mp := (5 * doy + 2) / 153 in
  let d := doy - (153 * mp + 2) / 5 + 1 in
  let m := if mp <? 10 then mp + 3 else mp - 9 in
  (yoe, m, d).

Definition doe_of_civil (yoe m d : Z) : Z :=
  let doy := (153 * (if 2 <? m then m - 3 else m + 9) + 2) / 5 + d - 1 in
  yoe * 365 + yoe / 4 - yoe / 100 + doy.

(** Days since the epoch to year, month and day, and back. *)
Definition civil_from_days (z : Z) : Z * Z * Z :=
  let z := z + 719468 in
  let era := z / 146097 in
  let '(yoe, m, d) := civil_of_doe (z mod 146097) in
  (yoe + era * 400 + (if m <=? 2 then 1 else 0), m, d).

Definition days_from_civil (y m d : Z) : Z :=
  let y := y - (if m <=? 2 then 1 else 0) in
  (y / 400) * 146097 + doe_of_civil (y mod 400) m d - 719468.

Definition digit_char (n : Z) : ascii := ascii_of_nat (Z.to_nat (48 + n mod 10)).

(** [n] on [width] decimal digits. *)
Fixpoint digits (width : nat) (n : Z) : string :=
  match width with
  | O => EmptyString
  | S w => digits w (n / 10) +:+ String (digit_char n) EmptyString
  end.

Definition year_string (y : Z) : string :=
  if (0 <=? y) && (y <=? 9999) then digits 4 y
  else String (if y <? 0 then "-"%char else "+"%char) (digits 6 (Z.abs y)).

(** [-MM-DDTHH:mm:ss.sssZ], for the month, the day and the milliseconds
    since midnight. *)
Definition time_string (m d t : Z) : string :=
  "-" +:+ digits 2 m +:+ "-" +:+ digits 2 d +:+ "T" +:+
  digits 2 (t / 3600000) +:+ ":" +:+ digits 2 (t / 60000 mod 60) +:+ ":" +:+
  digits 2 (t / 1000 mod 60) +:+ "." +:+ digits 3 (t mod 1000) +:+ "Z".

Definition iso_of_ms (ms : Z) : string :=
  let '(y, m, d) := civil_from_days (ms / 86400000) in
  year_string y +:+ time_string m d (ms mod 86400000).

Definition digit_value (c : ascii) : option Z :=
  if (48 <=? code c) && (code c <=? 57) then Some (code c - 48) else None.

Fixpoint read_digits (acc : Z) (s : string) : option Z :=
  match s with
  | String c s' => d ← digit_value c; read_digits (10 * acc + d) s'
  | EmptyString => Some acc
  end.

(** The decimal field of [len] characters at [start]. *)
Definition field (start len : nat) (s : string) : option Z :=
  let f := String.substring start len s in
  if bool_decide (String.length f = len) then read_digits 0 f else None.

(** [s] without its first [n] characters. *)
Fixpoint skip (n : nat) (s : string) : string :=
  match n, s with
  | S n', String _ s' => skip n' s'
  | _, _ => s
  end.

(** The text after the year: [-MM-DDTHH:mm:ss.sssZ]. *)
Definition read_time (y : Z) (s : string) : option Z :=
  if bool_decide (String.length s = 20%nat
                  ∧ String.substring 0 1 s = "-" ∧ String.substring 3 1 s = "-"
                  ∧ String.substring 6 1 s = "T" ∧ String.substring 9 1 s = ":"
                  ∧ String.substring 12 1 s = ":" ∧ String.substring 15 1 s = "."
                  ∧ String.substring 19 1 s = "Z")
  then
    m ← field 1 2 s; d ← field 4 2 s;
    hh ← field 7 2 s; mm ← field 10 2 s; ss ← field 13 2 s; ms ← field 16 3 s;
    let day := days_from_civil y m d in
    if bool_decide (civil_from_days day = (y, m, d))
       && (hh <=? 23) && (mm <=? 59) && (ss <=? 59)
    then Some (day * 86400000 + hh * 3600000 + mm * 60000 + ss * 1000 + ms)
    else None
  else None.

(** A year of four digits, or a sign and six digits. *)
Definition parse_iso (s : string) : option Z :=
  match s with
  | String c s' =>
      if bool_decide (c = "+"%char) then
        y ← field 0 6 s'; read_time y (skip 6 s')
      else if bool_decide (c = "-"%char) then
        y ← field 0 6 s';
        if y =? 0 then None else read_time (- y) (skip 6 s')
      else y ← field 0 4 s; read_time y (skip 4 s)
  | EmptyString => None
  end.

(** [new Date(s)]: the time value is clipped to 8.64e15 ms around the epoch. *)
Definition Date_of_string (s : string) : Date :=
  match parse_iso s with
  | Some ms => if Z.abs ms <=? 8640000000000000 then Valid ms else Invalid
  | None => Invalid
  end.

(** [civil_of_doe] and [doe_of_civil] agree on the day [doe], and the year,
    month and day are in their ranges. *)
Definition civil_ok (doe : Z) : bool :=
  let '(yoe, m, d) := civil_of_doe doe in
  (0 <=? yoe) && (yoe <? 400) && (1 <=? m) && (m <=? 12) && (1 <=? d) && (d <=? 31)
  && (doe_of_civil yoe m d =? doe).

(** One step of the check of [civil_ok] on the days from 0: the next day and
    whether all the days before it passed. *)
Definition civil_step (s : Z * bool) : Z * bool :=
  (fst s + 1, snd s && civil_ok (fst s)).

(** *** JSON *)

Definition dquote : ascii := "034"%char.
Definition backslash : ascii := "092"%char.

Definition escape_char (c : ascii) : string :=
  if bool_decide (c = dquote ∨ c = backslash) then String backslash (String c EmptyString)
  else if code c =? 10 then String backslash "n"
  else if code c =? 13 then String backslash "r"
  else if code c =? 9 then String backslash "t"
  else String c EmptyString.

Fixpoint escape (s : string) : string :=
  match s with
  | String c s' => escape_char c +:+ escape s'
  | EmptyString => EmptyString
  end.

Definition quote (s : string) : string :=
  String dquote (escape s) +:+ String dquote EmptyString.

Definition member (key value : string) : string :=
  quote key +:+ ":" +:+ quote value.

Definition stringify_record (d : TaskData) : string :=
  "{" +:+ member "id" (d_id d) +:+ "," +:+ member "title" (d_title d) +:+ "," +:+
  member "description" (d_description d) +:+ "," +:+
  member "status" (d_status d) +:+ "," +:+ member "priority" (d_priority d) +:+ "," +:+
  member "createdAt" (d_createdAt d) +:+
  match d_color d with
  | Some c => "," +:+ member "color" c
  | None => EmptyString   (* a member that is [undefined] is left out *)
  end +:+ "}".

Definition JSON_stringify (l : list TaskData) : string :=
  "[" +:+ String.concat "," (stringify_record <$> l) +:+ "]".

(** [s] without its prefix [p]. *)
Fixpoint expect (p s : string) : option string :=
  match p, s with
  | EmptyString, _ => Some s
  | String a p', String b s' => if bool_decide (a = b) then expect p' s' else None
  | String _ _, EmptyString => None
  end.

Definition unescape (c : ascii) : ascii :=
  if bool_decide (c = "n"%char) then "010"%char
  else if bool_decide (c = "r"%char) then "013"%char
  else if bool_decide (c = "t"%char) then "009"%char
  else c.

(** A string literal, read after its opening quote. *)
Fixpoint read_string (s : string) : option (string * string) :=
  match s with
  | EmptyString => None
  | String c s' =>
      if bool_decide (c = dquote) then Some (EmptyString, s')
      else if bool_decide (c = backslash) then
        match s' with
        | String e s'' => '(v, rest) ← read_string s''; Some (String (unescape e) v, rest)
        | EmptyString => None
        end
      else '(v, rest) ← read_string s'; Some (String c v, rest)
  end.

Definition read_member (key s : string) : option (string * string) :=
  s ← expect (quote key +:+ ":" +:+ String dquote EmptyString) s; read_string s.

Definition read_record (s : string) : option (TaskData * string) :=
  s ← expect "{" s;
  '(i, s) ← read_member "id" s; s ← expect "," s;
  '(t, s) ← read_member "title" s; s ← expect "," s;
  '(d, s) ← read_member "description" s; s ← expect "," s;
  '(st, s) ← read_member "status" s; s ← expect "," s;
  '(p, s) ← read_member "priority" s; s ← expect "," s;
  '(c, s) ← read_member "createdAt" s;
  match expect "," s with
  | Some s =>
      '(col, s) ← read_member "color" s; s ← expect "}" s;
      Some (mkTaskData i t d st p c (Some col), s)
  | None => s ← expect "}" s; Some (mkTaskData i t d st p c None, s)
  end.

Fixpoint read_records (fuel : nat) (s : string) : option (list TaskData) :=
  match fuel with
  | O => None
  | S fuel =>
      '(d, s) ← read_record s;
      if bool_decide (s = "]") then Some [d]
      else s ← expect "," s; ds ← read_records fuel s; Some (d :: ds)
  end.

(** [JSON.parse(s)] followed by the call of [map] on its value. *)
Definition JSON_parse (s : string) : Result (list TaskData) :=
  if bool_decide (s = "[]") then Ok []
  else if bool_decide (s ∈ ["null"; "true"; "false"; "{}"]) then Throw TypeError
  else
    match expect "[" s ≫= read_records (String.length s) with
    | Some l => Ok l
    | None => Throw SyntaxError
    end.

Definition runtime : JSRuntime :=
  Build_JSRuntime trim toLowerCase includes localeCompare iso_of_ms
    Date_of_string JSON_stringify JSON_parse.

End Reference.

(** * Vocabulary of the properties *)

Section vocabulary.
Context `{!JSRuntime}.

(** [update] unfolded: the task it leaves behind and its result. *)
Definition after_title (pd : PartialTaskData) (t : Task) : Task :=
  match p_title pd with Some ttl => set_title (trim ttl) t | None => t end.
Definition after_description (pd : PartialTaskData) (t : Task) : Task :=
  match p_description pd with Some d => set_description (trim d) t | None => t end.
Definition after_status (pd : PartialTaskData) (t : Task) : Task :=
  match p_status pd with
  | Some st => set_color (getColorByStatus st) (set_status st t)
  | None => t
  end.
Definition after_priority (pd : PartialTaskData) (t : Task) : Task :=
  match p_priority pd with Some p => set_priority p t | None => t end.

Definition title_rejected (pd : PartialTaskData) : bool :=
  match p_title pd with Some ttl => blank ttl | None => false end.
Definition status_rejected (pd : PartialTaskData) : bool :=
  match p_status pd with
  | Some st => negb (bool_decide (st ∈ validStatuses))
  | None => false
  end.

Definition color_matches_status (t : Task) : Prop :=
  color t = getColorByStatus (status t).

(** What the constructor, [update] and [fromJSON] establish on the fields
    they validate. *)
Definition well_formed (t : Task) : Prop :=
  blank (title t) = false ∧ trim (title t) = title t ∧
  trim (description t) = description t ∧ status t ∈ validStatuses.

Inductive task_object : Task → Prop :=
  | object_new e ttl d st p t :
      Task_new e ttl d st p = Ok t → task_object t
  | object_fromJSON e data t :
      fromJSON e data = Ok t → task_object t
  | object_update pd t r t' :
      task_object t → update pd t = (r, t') → task_object t'.

(** The elements of the array that [getFilteredTasks] returns, from those of
    [this.tasks]. *)
Definition view (m : TaskManager) (a : list Task) : list Task :=
  let a :=
    if bool_decide (currentFilter m ≠ "all")
    then filter (λ task, status task = currentFilter m) a else a in
  let a :=
    if negb (falsy (currentSearch m))
    then filter (λ task,
           includes (toLowerCase (title task)) (currentSearch m) ||
           includes (toLowerCase (description task)) (currentSearch m)) a
    else a in
  if bool_decide (currentSort m ≠ "manual")
  then sort (compareTasks (currentSort m)) a else a.

(** The world that [save] leaves: the storage is written unless the
    serialization of a task throws. *)
Definition saved (w : World) : World :=
  match map_result toJSON (array w (tasks (this w))) with
  | Ok tasksData => set_localStorage (Some (JSON_stringify tasksData)) w
  | Throw _ => w
  end.

(** What is stored makes [load] fail: nothing or the empty string is
    stored, or the text does not parse, or a record is rejected. *)
Definition load_fails (e : Env) (stored : option string) : Prop :=
  match stored with
  | Some savedTasks =>
      savedTasks = "" ∨
      ∃ x, JSON_parse savedTasks ≫= map_result (fromJSON e) = Throw x
  | None => True
  end.

End vocabulary.

Fixpoint free_of (c : ascii) (s : string) : Prop :=
  match s with
  | String a s' => a ≠ c ∧ free_of c s'
  | EmptyString => True
  end.

(** [returns m w Q]: run on [w], the body [m] returns normally, with a value
    and in a world that satisfy [Q]. *)
Definition returns {A} (m : M World A) (w : World) (Q : A → World → Prop) : Prop :=
  ∃ a w', m w = (Ok a, w') ∧ Q a w'.

(** [w'] has the manager and the storage of [w], and every array of [w]
    with its elements. *)
Definition extends (w w' : World) : Prop :=
  this w' = this w ∧ localStorage w' = localStorage w ∧
  ∀ l, l ∈ dom (heap w) → heap w' !! l = heap w !! l.

(** The world in which [this.tasks] is a new array of elements [a]. *)
Definition installed (a : list Task) (w : World) : World :=
  let l := fresh (dom (heap w)) in
  set_this (set_tasks l (this w)) (set_heap (<[l:=a]> (heap w)) w).

(** [x] is the id of exactly one task of [ts], the task [t] at index [i]. *)
Definition sole (x : string) (ts : list Task) (i : nat) (t : Task) : Prop :=
  ts !! i = Some t ∧ id t = x ∧
  ∀ k t', ts !! k = Some t' → id t' = x → k = i.

Definition exactly_one (x : string) (ts : list Task) : Prop :=
  ∃ i t, sole x ts i t.

(** The array after the two writes of [reorderTasks]. *)
Definition swapped (ts : list Task) (i j : nat) (ti tj : Task) : list Task :=
  <[j:=ti]> (<[i:=tj]> ts).

(** The world after the two writes and the assignment of the sort key. *)
Definition reordered (i j : nat) (ti tj : Task) (w : World) : World :=
  let l := tasks (this w) in
  mkWorld (<[l := swapped (array w l) i j ti tj]> (heap w))
          (set_currentSort "manual" (this w)) (localStorage w).

(** [a] is at least as recent as [b]; both dates are valid. *)
Definition not_older (a b : Task) : Prop :=
  match createdAt a, createdAt b with
  | Valid x, Valid y => y ≤ x
  | _, _ => False
  end.

(** The tasks of the collection, in order. *)
Definition collection (w : World) : list Task := array w (tasks (this w)).

(** [this.tasks] refers to an array of the heap. *)
Definition allocated (w : World) : Prop := tasks (this w) ∈ dom (heap w).

(** The world in which the array of [this.tasks] holds the elements [a]. *)
Definition with_tasks (a : list Task) (w : World) : World :=
  set_heap (<[tasks (this w) := a]> (heap w)) w.

(** The number of tasks of status [st]. *)
Definition count_status (st : string) (ts : list Task) : Z :=
  Z.of_nat (length (filter (λ task, status task = st) ts)).

Section vocabulary_collection.
Context `{!JSRuntime}.

(** What [save] leaves in the storage for the tasks [a], over the value
    [before]: their serialization, or [before] when a task has no ISO date. *)
Definition stored_after_save (a : list Task) (before : option string) : option string :=
  match map_result toJSON a with
  | Ok tasksData => Some (JSON_stringify tasksData)
  | Throw _ => before
  end.

(** [w'] is [w] after a command that left the tasks [a] in the array of
    [this.tasks] and saved: the manager fields are those of [w]. *)
Definition committed (a : list Task) (w w' : World) : Prop :=
  this w' = this w ∧ allocated w' ∧ collection w' = a ∧
  localStorage w' = stored_after_save a (localStorage w).

(** What [load] makes of the stored text: the tasks it installs, [None]
    when it assigns nothing. *)
Definition loaded (e : Env) (stored : option string) : option (list Task) :=
  match stored with
  | Some savedTasks =>
      if falsy savedTasks then None
      else match JSON_parse savedTasks ≫= map_result (fromJSON e) with
           | Ok a => Some a
           | Throw _ => Some []
           end
  | None => None
  end.

(** The task that [update] leaves when the record only holds a status, or
    only a priority. *)
Definition with_status (st : string) (t : Task) : Task :=
  set_color (getColorByStatus st) (set_status st t).

End vocabulary_collection.

(** The status after [quickEditStatus], the priority after
    [quickEditPriority]. *)
Definition next_status (st : string) : string :=
  if decide (st = "à faire") then "en cours"
  else if decide (st = "en cours") then "terminée"
  else if decide (st = "terminée") then "bloquée"
  else "à faire".

Definition next_priority (p : string) : string :=
  if decide (p = "basse") then "moyenne"
  else if decide (p = "moyenne") then "haute"
  else "basse".

(** The titles, statuses and priorities of the samples of [addSampleData]. *)
Definition sample_titles : list string :=
  ["Créer une API REST"; "Design de l'interface"; "Tests unitaires";
   "Documentation"; "Déploiement"; "Réunion équipe"].
Definition sample_statuses : list string :=
  ["à faire"; "en cours"; "à faire"; "bloquée"; "terminée"; "à faire"].
Definition sample_priorities : list string :=
  ["haute"; "moyenne"; "haute"; "basse"; "moyenne"; "basse"].

Global Instance number_eq_dec : EqDecision number.
Proof. solve_decision. Defined.

(** The priorities of [priorityOrder], and the rank of the priority of a
    task among them. *)
Definition validPriorities : list string := ["basse"; "moyenne"; "haute"].

Definition rank (t : Task) : Z := default 0 (priorityOrder !! priority t).

(** What the comparators of the date keys and of the priority keys compare. *)
Definition date_keys : list string := ["date-asc"; "date-desc"].
Definition priority_keys : list string := ["priority-asc"; "priority-desc"].

(** The sort keys that have a case in the comparator. *)
Definition sort_keys : list string :=
  ["date-asc"; "date-desc"; "title-asc"; "title-desc"; "priority-desc";
   "priority-asc"].

Definition sort_key (currentSort : string) (t : Task) : number :=
  if bool_decide (currentSort ∈ date_keys) then getTime (createdAt t)
  else priority_rank (priority t).

Section vocabulary_samples.
Context `{!JSRuntime}.

(** The tasks that the status filter and the search text select, in the
    order of the collection: the view before it is sorted. *)
Definition selection (m : TaskManager) (a : list Task) : list Task :=
  view (set_currentSort "manual" m) a.

(** [c] holds the six samples of [addSampleData], built on the readings
    [es]. *)
Definition samples (es : nat → Env) (c : list Task) : Prop :=
  length c = 6%nat ∧
  id <$> c = (λ k, generateId (es k)) <$> seq 0 6 ∧
  title <$> c = trim <$> sample_titles ∧
  status <$> c = sample_statuses ∧
  priority <$> c = sample_priorities ∧
  Forall color_matches_status c.

End vocabulary_samples.

(** ** Concrete data *)

Module Examples.

Definition e0 : Env := mkEnv 1700000000000 "0.4fzyo82mvyr" 1700000000321.

Definition api : Task :=
  mkTask "task_1700000000000_4fzyo82mv" "Créer une API REST" "Développer une API"
    "à faire" "haute" (Valid 1700000000321) (Some "#3498db").
Definition design : Task :=
  mkTask "task_1700000000001_9k2m1xq0a" "Design de l'interface" "Créer les maquettes"
    "en cours" "moyenne" (Valid 1700000000400) (Some "#f39c12").
Definition deploiement : Task :=
  mkTask "task_1700000000002_b7c3d9e1f" "Déploiement" "Mettre en production"
    "terminée" "moyenne" (Valid 1700000000500) (Some "#27ae60").
Definition tests : Task :=
  mkTask "task_1700000000003_h5j6k7l8m" "Tests unitaires" "Écrire les tests"
    "terminée" "haute" (Valid 1700000000900) (Some "#27ae60").

(** A task read from a record whose createdAt is not a date. *)
Definition documentation : Task :=
  mkTask "task_1700000000004_z1y2x3w4v" "Documentation" ""
    "terminée" "basse" Invalid (Some "#27ae60").
Definition documentation_record : TaskData :=
  mkTaskData "task_1700000000004_z1y2x3w4v" "Documentation" ""
    "terminée" "basse" "hier" (Some "#27ae60").

(** A second task with the id of [api]. *)
Definition api_copy : Task :=
  mkTask "task_1700000000000_4fzyo82mv" "Créer une API REST (copie)" ""
    "à faire" "basse" (Valid 1700000000600) (Some "#3498db").

Definition manager (sort : string) : TaskManager :=
  mkTaskManager 1%positive "all" "" sort.

Definition world (ts : list Task) (m : TaskManager) (stored : option string) : World :=
  mkWorld {[ 1%positive := ts ]} m stored.

Definition titre_et_statut : PartialTaskData :=
  mkPartial (Some "API GraphQL") None (Some "annulée") None.

Definition termines : TaskManager := mkTaskManager 1%positive "terminée" "" "date-desc".

End Examples.

(** * Properties *)

(** ** Task *)

Section task_properties.
Context `{!JSRuntime}.

Lemma validateInputs_Ok ttl st :
  validateInputs ttl st = Ok tt ↔ blank ttl = false ∧ st ∈ validStatuses.
Proof.
  unfold validateInputs. destruct (blank ttl).
  - split; [done|]. by intros [? _].
  - case_bool_decide; simpl; (split; [done|]); by intros [_ ?].
Qed.

Lemma validateInputs_blank ttl st :
  blank ttl = true → validateInputs ttl st = Throw (Error msg_title).
Proof. unfold validateInputs. by intros ->. Qed.

Lemma validateInputs_status ttl st :
  blank ttl = false → st ∉ validStatuses →
  validateInputs ttl st = Throw (Error msg_status).
Proof. unfold validateInputs. intros -> ?. by rewrite bool_decide_eq_false_2. Qed.

Lemma blank_true ttl : ttl = "" ∨ trim ttl = "" → blank ttl = true.
Proof.
  unfold blank, falsy. intros [->| ->]; [done|].
  apply orb_true_iff. right. by apply bool_decide_eq_true.
Qed.

Lemma blank_false ttl : ttl ≠ "" → trim ttl ≠ "" → blank ttl = false.
Proof.
  unfold blank, falsy. intros ? ?. apply orb_false_iff.
  split; apply bool_decide_eq_false; [done|].
  by destruct (trim ttl).
Qed.

Lemma getColorByStatus_valid st :
  st ∈ validStatuses → is_Some (getColorByStatus st).
Proof.
  unfold validStatuses. rewrite !elem_of_cons, elem_of_nil.
  intros [->|[->|[->|[->|[]]]]]; by eexists.
Qed.

(** The result of [new Task(...)] in terms of the two checks. *)
Lemma Task_new_Ok e ttl d st p t :
  Task_new e ttl d st p = Ok t ↔
  validateInputs ttl (default "à faire" st) = Ok tt ∧
  t = mkTask (generateId e) (trim ttl) (trim (default "" d)) (default "à faire" st)
        (default "moyenne" p) (Valid (new_Date e))
        (getColorByStatus (default "à faire" st)).
Proof.
  unfold Task_new. destruct (validateInputs _ _) as [[]|]; simpl; split.
  - by intros [= <-].
  - by intros [_ ->].
  - done.
  - by intros [? _].
Qed.

Lemma Task_new_Throw e ttl d st p x :
  Task_new e ttl d st p = Throw x ↔ validateInputs ttl (default "à faire" st) = Throw x.
Proof.
  unfold Task_new. destruct (validateInputs _ _) as [[]|]; simpl.
  - split; discriminate.
  - split; by intros [= ->].
Qed.

Lemma update_unfold pd t :
  update pd t =
    if title_rejected pd then (Throw (Error msg_title), t)
    else if status_rejected pd
    then (Throw (Error msg_status), after_description pd (after_title pd t))
    else (Ok tt, after_priority pd (after_status pd
                   (after_description pd (after_title pd t)))).
Proof.
  destruct pd as [[ttl|] [d|] [st|] [p|]];
    unfold update, title_rejected, status_rejected, after_title,
      after_description, after_status, after_priority, bind, if_defined; simpl;
    repeat (match goal with
            | |- context [blank ?x] => destruct (blank x)
            | |- context [bool_decide ?P] => destruct (bool_decide P)
            end; simpl); reflexivity.
Qed.

Lemma Task_new_color e ttl d st p t :
  Task_new e ttl d st p = Ok t → color_matches_status t.
Proof. intros [_ ->]%Task_new_Ok. reflexivity. Qed.

Lemma update_color pd t r t' :
  color_matches_status t → update pd t = (r, t') → color_matches_status t'.
Proof.
  rewrite update_unfold. unfold color_matches_status. intros Ht Hu.
  destruct (title_rejected pd); [by simplify_eq|].
  destruct pd as [[ttl|] [d|] [st|] [p|]];
    unfold status_rejected, after_priority, after_status, after_description,
      after_title in Hu; simpl in Hu;
    repeat case_match; by simplify_eq.
Qed.

Lemma fromJSON_Ok e data t :
  fromJSON e data = Ok t ↔
  validateInputs (d_title data) (d_status data) = Ok tt ∧
  t = mkTask (d_id data) (trim (d_title data)) (trim (d_description data))
        (d_status data) (d_priority data) (Date_of_string (d_createdAt data))
        (d_color data).
Proof.
  unfold fromJSON.
  destruct (Task_new _ _ _ _ _) as [t0|x] eqn:Hnew; simpl.
  - apply Task_new_Ok in Hnew as [Hv ->]. simpl in *. split.
    + by intros [= <-].
    + by intros [_ ->].
  - apply Task_new_Throw in Hnew. simpl in Hnew. rewrite Hnew. split; [done|].
    by intros [? _].
Qed.

Lemma fromJSON_Throw e data x :
  fromJSON e data = Throw x ↔ validateInputs (d_title data) (d_status data) = Throw x.
Proof.
  unfold fromJSON.
  destruct (Task_new _ _ _ _ _) as [t0|y] eqn:Hnew; simpl.
  - apply Task_new_Ok in Hnew as [Hv ->]. simpl in *. rewrite Hv.
    split; discriminate.
  - apply Task_new_Throw in Hnew. simpl in Hnew. rewrite Hnew.
    split; by intros [= ->].
Qed.

(** The readings of the clock and of [Math.random] do not reach the task
    that [fromJSON] returns. *)
Lemma fromJSON_env e e' data : fromJSON e data = fromJSON e' data.
Proof.
  destruct (fromJSON e data) as [t|x] eqn:H1; symmetry.
  - apply fromJSON_Ok. by apply fromJSON_Ok in H1.
  - apply fromJSON_Throw. by apply fromJSON_Throw in H1.
Qed.

Lemma fromJSON_color e data t :
  fromJSON e data = Ok t →
  color t = d_color data ∧ status t = d_status data.
Proof. by intros [_ ->]%fromJSON_Ok. Qed.

Section trim_idempotent.
Hypothesis trim_idem : ∀ s, trim (trim s) = trim s.

Lemma blank_trim ttl : blank ttl = false → blank (trim ttl) = false.
Proof.
  unfold blank, falsy. rewrite trim_idem.
  intros [_ Hlen%bool_decide_eq_false]%orb_false_iff.
  apply orb_false_iff. split; [|by apply bool_decide_eq_false].
  apply bool_decide_eq_false. intros Heq. by rewrite Heq in Hlen.
Qed.

Lemma Task_new_well_formed e ttl d st p t :
  Task_new e ttl d st p = Ok t → well_formed t.
Proof.
  intros [[??]%validateInputs_Ok ->]%Task_new_Ok. unfold well_formed; simpl.
  rewrite !trim_idem. auto using blank_trim.
Qed.

Lemma fromJSON_well_formed e data t :
  fromJSON e data = Ok t → well_formed t.
Proof.
  intros [[??]%validateInputs_Ok ->]%fromJSON_Ok. unfold well_formed; simpl.
  rewrite !trim_idem. auto using blank_trim.
Qed.

Lemma update_well_formed pd t r t' :
  well_formed t → update pd t = (r, t') → well_formed t'.
Proof.
  rewrite update_unfold. unfold well_formed. intros (?&?&?&?) Hu.
  destruct pd as [[ttl|] [d|] [st|] [p|]];
    unfold title_rejected, status_rejected, after_priority, after_status,
      after_description, after_title in Hu; simpl in Hu;
    repeat (match type of Hu with
            | context [blank ?x] => destruct (blank x) eqn:?
            | context [bool_decide ?P] => destruct (bool_decide_reflect P)
            end; simpl in Hu);
    simplify_eq; simpl; rewrite ?trim_idem; auto using blank_trim.
Qed.

(** Every task the class can build is well formed. *)
Lemma task_object_well_formed t : task_object t → well_formed t.
Proof.
  induction 1; eauto using Task_new_well_formed, fromJSON_well_formed,
    update_well_formed.
Qed.

End trim_idempotent.

(** C2 (as amended).  When the record supplies a status outside the closed
    set, [update] throws a validation error and leaves id, status,
    priority, createdAt and color as they were.  Title and description are
    as they were unless the record supplies them too: a blank title is
    rejected before anything is written, while a title that passes the check
    and a description are already written, trimmed, when the status is
    rejected. *)
Theorem update_invalid_status pd t st :
  p_status pd = Some st → st ∉ validStatuses →
  ∃ msg t',
    update pd t = (Throw (Error msg), t') ∧
    id t' = id t ∧ status t' = status t ∧ priority t' = priority t ∧
    createdAt t' = createdAt t ∧ color t' = color t ∧
    (title_rejected pd = true → msg = msg_title ∧ t' = t) ∧
    (title_rejected pd = false →
       msg = msg_status ∧
       title t' = from_option trim (title t) (p_title pd) ∧
       description t' = from_option trim (description t) (p_description pd)).
Proof.
  intros Hst Hin. rewrite update_unfold.
  assert (status_rejected pd = true) as ->.
  { unfold status_rejected. rewrite Hst. by rewrite bool_decide_eq_false_2. }
  destruct (title_rejected pd).
  - exists msg_title, t. naive_solver.
  - exists msg_status, (after_description pd (after_title pd t)).
    unfold after_description, after_title.
    destruct (p_title pd), (p_description pd); simpl; naive_solver.
Qed.

(** C3 (as amended).  For every well-formed task whose createdAt is a valid
    date, [fromJSON (toJSON t)] is [t], field by field, on a runtime that
    parses back the ISO-8601 string it writes for that time value. *)
Theorem fromJSON_toJSON e t ms :
  well_formed t →
  createdAt t = Valid ms →
  Date_of_string (iso_of_ms ms) = Valid ms →
  toJSON t ≫= fromJSON e = Ok t.
Proof.
  intros (Hb&Ht&Hd&Hs) Hc Hiso. unfold toJSON. rewrite Hc. simpl.
  apply fromJSON_Ok. simpl. split.
  - by apply validateInputs_Ok.
  - rewrite Ht, Hd, Hiso, <-Hc. by destruct t.
Qed.

(** A task with an Invalid Date cannot be serialized. *)
Lemma toJSON_Invalid t : createdAt t = Invalid → toJSON t = Throw RangeError.
Proof. unfold toJSON. by intros ->. Qed.

Lemma toJSON_Ok t data :
  toJSON t = Ok data →
  ∃ ms, createdAt t = Valid ms ∧
    data = mkTaskData (id t) (title t) (description t) (status t) (priority t)
             (iso_of_ms ms) (color t).
Proof.
  unfold toJSON. destruct (createdAt t) as [ms|]; simpl; [|done].
  intros [= <-]. by exists ms.
Qed.

(** C10.  No value of priority makes the constructor or [update] throw, and
    the value is stored as it is: the constructor succeeds with any priority
    whenever the title and status checks pass, and the priority of its task
    is that value; [update] with a priority ends as it does without it, and
    when it returns the priority of the task is that value and every other
    field is as [update] without the priority leaves it.  A status outside
    the closed set is rejected by both. *)
Theorem priority_not_validated e ttl d st p pd t :
  (validateInputs ttl st = Ok tt →
     ∃ t', Task_new e ttl d (Some st) (Some p) = Ok t' ∧ priority t' = p) ∧
  (∀ t', update (mkPartial (p_title pd) (p_description pd) (p_status pd) None) t
           = (Ok tt, t') →
     ∃ t'',
       update (mkPartial (p_title pd) (p_description pd) (p_status pd) (Some p)) t
         = (Ok tt, t'') ∧
       t'' = set_priority p t' ∧
       priority t'' = p ∧
       id t'' = id t' ∧ title t'' = title t' ∧ description t'' = description t' ∧
       status t'' = status t' ∧ createdAt t'' = createdAt t' ∧ color t'' = color t') ∧
  (∀ x t', update (mkPartial (p_title pd) (p_description pd) (p_status pd) None) t
             = (Throw x, t') →
     update (mkPartial (p_title pd) (p_description pd) (p_status pd) (Some p)) t
       = (Throw x, t')) ∧
  (blank ttl = false → st ∉ validStatuses →
     Task_new e ttl d (Some st) (Some p) = Throw (Error msg_status) ∧
     ∃ t', update (mkPartial None None (Some st) (Some p)) t
             = (Throw (Error msg_status), t')).
Proof.
  repeat split.
  - intros Hv. eexists. split; [apply Task_new_Ok; split; [exact Hv|reflexivity]|done].
  - intros t' Hu. exists (set_priority p t'). split; [|done].
    revert Hu. rewrite !update_unfold.
    unfold title_rejected, status_rejected; simpl.
    repeat case_match; intros; by simplify_eq.
  - intros x t'. rewrite !update_unfold.
    unfold title_rejected, status_rejected; simpl.
    repeat case_match; intros; by simplify_eq.
  - apply Task_new_Throw. simpl. by apply validateInputs_status.
  - rewrite update_unfold. unfold title_rejected, status_rejected; simpl.
    rewrite bool_decide_eq_false_2 by done. simpl. by eexists.
Qed.

End task_properties.

(** *** Identifiers *)

Lemma pretty_N_go_free x s :
  free_of "_" s → free_of "_" (pretty_N_go x s).
Proof.
  revert s. induction (N.lt_wf_0 x) as [x _ IH]; intros s Hs.
  assert (x = 0 ∨ 0 < x)%N as [->|?] by lia.
  - by rewrite pretty_N_go_0.
  - rewrite pretty_N_go_step by done. apply IH.
    { by apply N.div_lt. }
    split; [|done]. unfold pretty_N_char. by repeat case_match.
Qed.

Lemma pretty_Z_free (z : Z) : free_of "_" (pretty z).
Proof.
  assert (∀ n : N, free_of "_" (pretty n)) as HN.
  { intros n. unfold pretty, pretty_N. case_decide; [by repeat split|].
    by apply pretty_N_go_free. }
  destruct z as [|q|q]; unfold pretty, pretty_Z; [by repeat split|apply HN|].
  split; [done|apply HN].
Qed.

Lemma separator_inj a b s1 s2 :
  free_of "_" a → free_of "_" b →
  a +:+ String "_" s1 = b +:+ String "_" s2 → a = b ∧ s1 = s2.
Proof.
  revert b. induction a as [|c a IH]; intros [|c' b]; simpl.
  - by intros _ _ [= ->].
  - intros _ [? _] [= ? ?]. by subst.
  - intros [? _] _ [= ? ?]. by subst.
  - intros [_ ?] [_ ?] [= -> Hab]. destruct (IH b) as [-> ->]; auto.
Qed.

Lemma generateId_inj e e' :
  generateId e = generateId e' ↔
  Date_now e = Date_now e' ∧
  String.substring 2 9 (Math_random_36 e) = String.substring 2 9 (Math_random_36 e').
Proof.
  unfold generateId. split.
  - intros [= Heq]. apply separator_inj in Heq as [Hn ->]; auto using pretty_Z_free.
    by apply (inj pretty) in Hn.
  - by intros [-> ->].
Qed.

Section task_identifiers.
Context `{!JSRuntime}.

(** C9 (as amended).  A title that is empty or blank after trimming is
    rejected with the validation error of the title.  A title that is not
    empty after trimming, with a status of the closed set, is accepted, and
    the task gets the id [task_<Date.now()>_<nine characters of the random
    draw>]: the ids of two tasks differ exactly when the clock readings or
    the random suffixes differ, and no id is compared with those of the
    tasks that exist. *)
Theorem Task_new_title_and_id e ttl d st p :
  trim "" = "" →
  (ttl = "" ∨ trim ttl = "" → Task_new e ttl d st p = Throw (Error msg_title)) ∧
  (trim ttl ≠ "" → default "à faire" st ∈ validStatuses →
     ∃ t, Task_new e ttl d st p = Ok t ∧ id t = generateId e ∧
       ∀ e' ttl' d' st' p' t',
         Task_new e' ttl' d' st' p' = Ok t' →
         (id t = id t' ↔
            Date_now e = Date_now e' ∧
            String.substring 2 9 (Math_random_36 e)
              = String.substring 2 9 (Math_random_36 e'))).
Proof.
  intros Hempty. split.
  - intros Hb. apply Task_new_Throw, validateInputs_blank. by apply blank_true.
  - intros Hne Hst. eexists. split; [|split].
    + apply Task_new_Ok. split; [|reflexivity].
      apply validateInputs_Ok. split; [|done].
      apply blank_false; [|done]. intros ->. by rewrite Hempty in Hne.
    + reflexivity.
    + intros e' ttl' d' st' p' t' [_ ->]%Task_new_Ok. simpl. apply generateId_inj.
Qed.

End task_identifiers.

(** ** Sorting *)

Section sort.
Context {A : Type} (comparefn : A → A → number).

Lemma sort_insert_Permutation x l : sort_insert comparefn x l ≡ₚ x :: l.
Proof.
  induction l as [|y l IH]; simpl; [done|].
  case_match; [done|]. rewrite IH. apply Permutation_swap.
Qed.

Lemma sort_Permutation l : sort comparefn l ≡ₚ l.
Proof.
  induction l as [|x l IH]; simpl; [done|].
  fold (sort comparefn l). by rewrite sort_insert_Permutation, IH.
Qed.

(** On elements on which the comparator is a total preorder, the result is
    sorted. *)
Context (P : A → Prop) (R : relation A).
Hypothesis order_le : ∀ x y, P x → P y → (sort_order comparefn x y ≤ 0 ↔ R x y).
Hypothesis R_total : ∀ x y, P x → P y → R x y ∨ R y x.
Hypothesis R_trans : ∀ x y z, P x → P y → P z → R x y → R y z → R x z.

Lemma sort_insert_Sorted x l :
  P x → Forall P l → StronglySorted R l →
  StronglySorted R (sort_insert comparefn x l).
Proof.
  intros Hx Hl Hs. induction l as [|y l IH]; simpl.
  - by repeat constructor.
  - apply Forall_cons in Hl as [Hy Hl].
    apply StronglySorted_cons in Hs as [Hyl Hs].
    destruct (Z.leb_spec (sort_order comparefn x y) 0) as [Hle|Hgt].
    + apply order_le in Hle; [|done..].
      apply StronglySorted_cons. split; [|by apply StronglySorted_cons].
      apply Forall_cons. split; [done|].
      rewrite Forall_forall in Hyl, Hl |- *. intros z Hz.
      apply (R_trans x y z); auto.
    + assert (R y x) as Hyx.
      { destruct (R_total x y) as [Hxy|]; [done..| |done].
        apply order_le in Hxy; [lia|done..]. }
      apply StronglySorted_cons. split; [|by apply IH].
      rewrite sort_insert_Permutation. by apply Forall_cons.
Qed.

Lemma sort_Sorted l : Forall P l → StronglySorted R (sort comparefn l).
Proof.
  induction l as [|x l IH]; simpl; [constructor|].
  intros [Hx Hl]%Forall_cons. fold (sort comparefn l).
  apply sort_insert_Sorted; [done| |by apply IH].
  by rewrite sort_Permutation.
Qed.

End sort.

(** ** The heap *)

Section hoare.
Context {A B : Type}.

Lemma returns_mono (m : M World A) w (Q Q' : A → World → Prop) :
  returns m w Q → (∀ a w', Q a w' → Q' a w') → returns m w Q'.
Proof. intros (a&w'&?&?) HQ. exists a, w'. auto. Qed.

Lemma returns_ret (a : A) w (Q : A → World → Prop) : Q a w → returns (ret a) w Q.
Proof. intros. by exists a, w. Qed.

Lemma returns_bind (m : M World A) (f : A → M World B) w (Q : B → World → Prop) :
  returns m w (λ a w', returns (f a) w' Q) → returns (bind m f) w Q.
Proof.
  intros (a&w'&Hm&b&w''&Hf&HQ). exists b, w''. unfold bind. by rewrite Hm.
Qed.

End hoare.

Lemma returns_get w (Q : World → World → Prop) : Q w w → returns get w Q.
Proof. intros. by exists w, w. Qed.

Lemma returns_modify f w (Q : unit → World → Prop) :
  Q tt (f w) → returns (modify f) w Q.
Proof. intros. by exists tt, (f w). Qed.

Lemma returns_read l w (Q : list Task → World → Prop) :
  Q (array w l) w → returns (read l) w Q.
Proof. intros. by exists (array w l), w. Qed.

Lemma returns_write l a w (Q : unit → World → Prop) :
  Q tt (set_heap (<[l:=a]> (heap w)) w) → returns (write l a) w Q.
Proof. apply returns_modify. Qed.

Lemma returns_alloc a w (Q : loc → World → Prop) :
  (∀ l, l ∉ dom (heap w) → Q l (set_heap (<[l:=a]> (heap w)) w)) →
  returns (alloc a) w Q.
Proof. intros HQ. eexists _, _. split; [reflexivity|]. apply HQ, is_fresh. Qed.

Lemma extends_refl w : extends w w.
Proof. by repeat split. Qed.

Lemma extends_dom w w' : extends w w' → dom (heap w) ⊆ dom (heap w').
Proof.
  intros (_&_&H) l Hl. apply elem_of_dom. rewrite H by done. by apply elem_of_dom.
Qed.

Lemma extends_trans w1 w2 w3 : extends w1 w2 → extends w2 w3 → extends w1 w3.
Proof.
  intros H1 H2. pose proof (extends_dom _ _ H1) as Hd.
  destruct H1 as (?&?&H12), H2 as (?&?&H23). repeat split; [congruence..|].
  intros l Hl. rewrite H23, H12; auto.
Qed.

Lemma array_insert_eq w l a : array (set_heap (<[l:=a]> (heap w)) w) l = a.
Proof. unfold array; simpl. by rewrite lookup_insert_eq. Qed.

Lemma array_insert_ne w l l' a :
  l ≠ l' → array (set_heap (<[l:=a]> (heap w)) w) l' = array w l'.
Proof. intros. unfold array; simpl. by rewrite lookup_insert_ne. Qed.

Lemma extends_array w w' l : extends w w' → l ∈ dom (heap w) → array w' l = array w l.
Proof. intros (_&_&H) Hl. unfold array. by rewrite H. Qed.

(** Writing an array that [w0] does not have keeps the extension. *)
Lemma extends_insert w0 w l a :
  extends w0 w → l ∉ dom (heap w0) →
  extends w0 (set_heap (<[l:=a]> (heap w)) w).
Proof.
  intros (?&?&H) Hl. repeat split; [done..|]. simpl.
  intros l' Hl'. rewrite lookup_insert_ne by set_solver. by apply H.
Qed.

(** ** TaskManager *)

Section manager_properties.
Context `{!JSRuntime}.

(** [getFilteredTasks] returns a new array and writes to no array that
    exists when it is called. *)
Lemma getFilteredTasks_spec w :
  returns getFilteredTasks w (λ l w',
    (l ∉ dom (heap w)) ∧ extends w w' ∧
    array w' l = view (this w) (array w (tasks (this w)))).
Proof.
  unfold getFilteredTasks, view, array_copy, array_filter, array_sort, when.
  apply returns_bind, returns_get.
  apply returns_bind, returns_bind, returns_read, returns_alloc.
  intros l1 Hl1.
  set (w1 := set_heap _ w).
  assert (extends w w1) as He1 by (by apply extends_insert, Hl1; apply extends_refl).
  assert (array w1 l1 = array w (tasks (this w))) as Ha1 by apply array_insert_eq.
  clearbody w1. revert Ha1. generalize (array w (tasks (this w))) as a. intros a Ha1.
  apply returns_bind.
  apply (returns_mono _ _ (λ l2 w2, (l2 ∉ dom (heap w)) ∧ extends w w2 ∧
    array w2 l2 = (if bool_decide (currentFilter (this w) ≠ "all")
                   then filter (λ task, status task = currentFilter (this w)) a
                   else a))).
  { case_bool_decide.
    - apply returns_bind, returns_read, returns_alloc. intros l2 Hl2.
      pose proof (extends_dom _ _ He1).
      split; [set_solver|]. split; [apply extends_insert; set_solver|].
      by rewrite array_insert_eq, Ha1.
    - by apply returns_ret. }
  clear dependent w1 l1. intros l2 w2 (Hl2&He2&Ha2).
  revert Ha2. generalize (if bool_decide (currentFilter (this w) ≠ "all")
    then filter (λ task, status task = currentFilter (this w)) a else a) as a2.
  intros a2 Ha2. apply returns_bind.
  apply (returns_mono _ _ (λ l3 w3, (l3 ∉ dom (heap w)) ∧ extends w w3 ∧
    array w3 l3 = (if negb (falsy (currentSearch (this w)))
                   then filter (λ task,
                          includes (toLowerCase (title task)) (currentSearch (this w)) ||
                          includes (toLowerCase (description task))
                            (currentSearch (this w))) a2
                   else a2))).
  { destruct (negb _).
    - apply returns_bind, returns_read, returns_alloc. intros l3 Hl3.
      pose proof (extends_dom _ _ He2).
      split; [set_solver|]. split; [apply extends_insert; set_solver|].
      by rewrite array_insert_eq, Ha2.
    - by apply returns_ret. }
  clear dependent w2 l2. intros l3 w3 (Hl3&He3&Ha3).
  revert Ha3. generalize (if negb (falsy (currentSearch (this w)))
    then filter (λ task,
           includes (toLowerCase (title task)) (currentSearch (this w)) ||
           includes (toLowerCase (description task)) (currentSearch (this w))) a2
    else a2) as a3.
  intros a3 Ha3. apply returns_bind. case_bool_decide.
  - apply returns_bind, returns_read, returns_write, returns_ret.
    split; [done|]. split; [by apply extends_insert|].
    by rewrite array_insert_eq, Ha3.
  - by apply returns_ret, returns_ret.
Qed.

Lemma updateUI_spec w : returns updateUI w (λ _ w', extends w w').
Proof.
  unfold updateUI. apply returns_bind.
  eapply returns_mono; [apply getFilteredTasks_spec|].
  intros l w' (_&?&_). by apply returns_ret.
Qed.

Lemma save_unfold w : save w = (Ok tt, saved w).
Proof.
  unfold save, saved, try_catch, bind, get, lift, modify, ret.
  by destruct (map_result toJSON _).
Qed.

Lemma returns_save w (Q : unit → World → Prop) : Q tt (saved w) → returns save w Q.
Proof. intros. exists tt, (saved w). by rewrite save_unfold. Qed.

Lemma saved_extends w : heap (saved w) = heap w ∧ this (saved w) = this w.
Proof. unfold saved. by destruct (map_result toJSON _). Qed.

Lemma installed_array a w : array (installed a w) (tasks (this (installed a w))) = a.
Proof. unfold installed, array; simpl. by rewrite lookup_insert_eq. Qed.

(** [load] in its four cases: nothing stored, text that does not parse, a
    record that [fromJSON] rejects, and success. *)
Lemma load_unfold e w :
  load e w =
    (Ok tt,
     match localStorage w with
     | Some savedTasks =>
         if falsy savedTasks then w
         else match JSON_parse savedTasks ≫= map_result (fromJSON e) with
              | Ok a => installed a w
              | Throw _ => installed [] w
              end
     | None => w
     end).
Proof.
  unfold load, try_catch, bind, get, lift, modify, ret, alloc, installed.
  destruct (localStorage w) as [savedTasks|] eqn:Hstored; [|done].
  destruct (falsy savedTasks); simpl; [done|].
  destruct (JSON_parse savedTasks) as [tasksData|]; simpl; [|done].
  by destruct (map_result (fromJSON e) tasksData).
Qed.

Lemma map_result_Ok {A B} (f : A → Result B) l l' :
  map_result f l = Ok l' ↔ Forall2 (λ x y, f x = Ok y) l l'.
Proof.
  revert l'. induction l as [|x l IH]; intros l'; simpl.
  - split; [by intros [= <-]|by intros ->%Forall2_nil_inv_l].
  - destruct (f x) as [y|] eqn:Hx; simpl.
    + destruct (map_result f l) as [ys|] eqn:Hl; simpl.
      * split.
        -- intros [= <-]. constructor; [done|]. by apply IH.
        -- intros (y'&ys'&Hy&Hys&->)%Forall2_cons_inv_l.
           apply IH in Hys. congruence.
      * split; [done|].
        intros (y'&ys'&Hy&Hys&->)%Forall2_cons_inv_l. by apply IH in Hys.
    + split; [done|]. intros (y'&ys'&Hy&Hys&->)%Forall2_cons_inv_l. congruence.
Qed.

(** *** findIndex *)

Lemma findIndex_found {A} (P : A → Prop) `{!∀ x, Decision (P x)} (l : list A) i x :
  list_find P l = Some (i, x) → findIndex P l = Z.of_nat i.
Proof. unfold findIndex. by intros ->. Qed.

Lemma findIndex_absent {A} (P : A → Prop) `{!∀ x, Decision (P x)} (l : list A) :
  findIndex P l = -1 ↔ Forall (λ x, ¬ P x) l.
Proof.
  rewrite <-(list_find_None P l). unfold findIndex.
  destruct (list_find P l) as [[i x]|]; split; try done. lia.
Qed.

Lemma sole_find x ts i t :
  sole x ts i t → list_find (λ task, id task = x) ts = Some (i, t).
Proof.
  intros (Hi&Hx&Hu). apply list_find_Some. repeat split; [done..|].
  intros k y Hk Hlt Hy. specialize (Hu _ _ Hk Hy). lia.
Qed.

Lemma swapped_lookup ts i j ti tj k :
  ts !! i = Some ti → ts !! j = Some tj →
  swapped ts i j ti tj !! k =
    if decide (k = j) then Some ti
    else if decide (k = i) then Some tj else ts !! k.
Proof.
  intros Hi%lookup_lt_Some Hj%lookup_lt_Some. unfold swapped.
  destruct (decide (k = j)) as [->|].
  - apply list_lookup_insert_eq. by rewrite length_insert.
  - rewrite list_lookup_insert_ne by done.
    destruct (decide (k = i)) as [->|].
    + by apply list_lookup_insert_eq.
    + by rewrite list_lookup_insert_ne.
Qed.

Lemma swapped_swapped ts i j ti tj :
  ts !! i = Some ti → ts !! j = Some tj →
  swapped (swapped ts i j ti tj) j i ti tj = ts.
Proof.
  intros Hi Hj. apply list_eq. intros k.
  rewrite (swapped_lookup _ j i ti tj k).
  - rewrite (swapped_lookup ts i j ti tj k) by done.
    repeat case_decide; by subst.
  - rewrite (swapped_lookup ts i j ti tj j) by done. by rewrite decide_True.
  - rewrite (swapped_lookup ts i j ti tj i) by done.
    destruct (decide (i = j)) as [->|]; [|by rewrite decide_True].
    congruence.
Qed.

Lemma sole_swapped a b ts i j ti tj :
  a ≠ b → sole a ts i ti → sole b ts j tj →
  sole a (swapped ts i j ti tj) j ti ∧ sole b (swapped ts i j ti tj) i tj.
Proof.
  intros Hab (Hi&Ha&Hua) (Hj&Hb&Hub).
  assert (i ≠ j) by (intros ->; congruence).
  split; (split; [|split; [done|]]).
  - rewrite swapped_lookup by done. by rewrite decide_True.
  - intros k t'. rewrite swapped_lookup by done.
    repeat case_decide; [done|congruence|]. intros. exfalso. eauto.
  - rewrite swapped_lookup by done. rewrite decide_False by done.
    by rewrite decide_True.
  - intros k t'. rewrite swapped_lookup by done.
    repeat case_decide; [congruence|done|]. intros. exfalso. eauto.
Qed.

(** *** reorderTasks *)

Lemma reorderTasks_absent draggedId targetId w :
  let ts := array w (tasks (this w)) in
  Forall (λ task, id task ≠ draggedId) ts ∨ Forall (λ task, id task ≠ targetId) ts →
  reorderTasks draggedId targetId w = (Ok tt, w).
Proof.
  intros ts Habs. unfold reorderTasks, bind, get; simpl. fold ts.
  assert (bool_decide (findIndex (λ task, id task = draggedId) ts = -1)
          || bool_decide (findIndex (λ task, id task = targetId) ts = -1) = true) as ->;
    [|done].
  apply orb_true_iff.
  destruct Habs as [?|?]; [left|right]; by apply bool_decide_eq_true, findIndex_absent.
Qed.

Lemma reorderTasks_found draggedId targetId w i j ti tj :
  let ts := array w (tasks (this w)) in
  list_find (λ task, id task = draggedId) ts = Some (i, ti) →
  list_find (λ task, id task = targetId) ts = Some (j, tj) →
  returns (reorderTasks draggedId targetId) w (λ _ w',
    extends (saved (reordered i j ti tj w)) w').
Proof.
  intros ts Hi Hj. unfold reorderTasks.
  apply returns_bind, returns_get. simpl. fold ts.
  rewrite (findIndex_found _ _ _ _ Hi), (findIndex_found _ _ _ _ Hj), !Nat2Z.id.
  rewrite !bool_decide_eq_false_2 by lia. simpl.
  apply list_find_Some in Hi as (Hi&_), Hj as (Hj&_). rewrite Hi, Hj.
  apply returns_bind, returns_write.
  apply returns_bind, returns_bind, returns_get, returns_write.
  apply returns_bind, returns_modify.
  apply returns_bind, returns_save.
  match goal with |- returns _ (saved ?w1) _ =>
    replace w1 with (reordered i j ti tj w) end.
  { apply updateUI_spec. }
  rewrite !array_insert_eq.
  unfold reordered, swapped, set_this, set_heap; simpl. by rewrite insert_insert_eq.
Qed.

Lemma reordered_saved_array i j ti tj w :
  let w1 := saved (reordered i j ti tj w) in
  this w1 = set_currentSort "manual" (this w) ∧
  tasks (this w1) ∈ dom (heap w1) ∧
  array w1 (tasks (this w1)) = swapped (array w (tasks (this w))) i j ti tj.
Proof.
  simpl. destruct (saved_extends (reordered i j ti tj w)) as [Hh Ht].
  unfold array. rewrite Hh, Ht. simpl. split; [done|]. split.
  - apply elem_of_dom. by rewrite lookup_insert_eq.
  - by rewrite lookup_insert_eq.
Qed.

(** *** Claims on the manager *)

(** C1 (as amended).  [color] is the color function of [status] after
    construction, and [update] keeps it so whether it returns or throws.
    [fromJSON] stores the color of the record as it is, so that its task
    satisfies the invariant exactly when the record does, and [load] keeps
    the invariant when every stored record satisfies it. *)
Theorem color_follows_status e :
  (∀ ttl d st p t, Task_new e ttl d st p = Ok t → color_matches_status t) ∧
  (∀ pd t r t',
     color_matches_status t → update pd t = (r, t') → color_matches_status t') ∧
  (∀ data t,
     fromJSON e data = Ok t →
     color t = d_color data ∧
     (color_matches_status t ↔ d_color data = getColorByStatus (d_status data))) ∧
  (∀ w w',
     load e w = (Ok tt, w') →
     Forall color_matches_status (array w (tasks (this w))) →
     (∀ s tasksData,
        localStorage w = Some s → JSON_parse s = Ok tasksData →
        Forall (λ data, d_color data = getColorByStatus (d_status data)) tasksData) →
     Forall color_matches_status (array w' (tasks (this w')))).
Proof.
  split; [|split; [|split]].
  - intros *. apply Task_new_color.
  - intros *. apply update_color.
  - intros data t Hf. destruct (fromJSON_color _ _ _ Hf) as [Hc Hs].
    unfold color_matches_status. by rewrite Hc, Hs.
  - intros w w'. rewrite load_unfold. intros [= <-] Hw Hstored.
    destruct (localStorage w) as [s|]; [|done].
    destruct (falsy s); [done|].
    destruct (JSON_parse s) as [tasksData|] eqn:Hparse; simpl.
    2:{ rewrite installed_array. constructor. }
    specialize (Hstored s tasksData eq_refl Hparse).
    destruct (map_result (fromJSON e) tasksData) as [a|] eqn:Hmap;
      rewrite installed_array; [|constructor].
    apply map_result_Ok in Hmap. clear Hparse.
    induction Hmap as [|data t ?? Hf ? IH]; [constructor|].
    apply Forall_cons in Hstored as [Hd Hstored]. constructor; [|by apply IH].
    destruct (fromJSON_color _ _ _ Hf) as [Hc Hs].
    unfold color_matches_status. by rewrite Hc, Hs.
Qed.

(** C4 (as amended).  With the filter on ['terminée'], no search text and
    the sort key ['date-desc'], [getFilteredTasks] returns the tasks whose
    status is ['terminée'], each as often as it is stored, the most recent
    first, when the createdAt of each of these tasks is a valid date. *)
Theorem getFilteredTasks_done_newest_first w :
  let ts := array w (tasks (this w)) in
  currentFilter (this w) = "terminée" →
  currentSearch (this w) = "" →
  currentSort (this w) = "date-desc" →
  Forall (λ task, status task = "terminée" → createdAt task ≠ Invalid) ts →
  returns getFilteredTasks w (λ l w',
    array w' l ≡ₚ filter (λ task, status task = "terminée") ts ∧
    Forall (λ task, status task = "terminée") (array w' l) ∧
    StronglySorted not_older (array w' l)).
Proof.
  intros ts Hfilter Hsearch Hsort Hvalid.
  eapply returns_mono; [apply getFilteredTasks_spec|].
  intros l w' (_&_&->). fold ts. unfold view.
  rewrite Hfilter, Hsearch, Hsort. simpl.
  set (done := filter (λ task, status task = "terminée") ts).
  assert (Forall (λ task, createdAt task ≠ Invalid) done) as Hdone.
  { apply Forall_forall. intros t [Hst Ht]%list_elem_of_filter.
    rewrite Forall_forall in Hvalid. auto. }
  split; [apply sort_Permutation|]. split.
  - rewrite sort_Permutation. apply Forall_forall.
    by intros t [Hst _]%list_elem_of_filter.
  - apply (sort_Sorted _ (λ task, createdAt task ≠ Invalid)); [| | |done].
    + intros x y Hx Hy. unfold sort_order, not_older; simpl.
      destruct (createdAt x), (createdAt y); simpl; try done. lia.
    + intros x y Hx Hy. unfold not_older.
      destruct (createdAt x), (createdAt y); try done. lia.
    + intros x y z Hx Hy Hz. unfold not_older.
      destruct (createdAt x), (createdAt y), (createdAt z); try done. lia.
Qed.

(** C5 (as amended).  When [a] and [b] are distinct and each is the id of
    exactly one task, [reorderTasks a b] twice gives back the order of the
    tasks, and the sort key is ['manual'] after each of the two calls. *)
Theorem reorderTasks_involution a b w :
  let ts := array w (tasks (this w)) in
  a ≠ b → exactly_one a ts → exactly_one b ts →
  returns (reorderTasks a b) w (λ _ w1,
    currentSort (this w1) = "manual" ∧
    returns (reorderTasks a b) w1 (λ _ w2,
      currentSort (this w2) = "manual" ∧
      tasks (this w2) = tasks (this w) ∧
      array w2 (tasks (this w2)) = ts)).
Proof.
  intros ts Hab (i&ti&Ha) (j&tj&Hb).
  eapply returns_mono;
    [apply (reorderTasks_found a b w i j ti tj); by apply sole_find|].
  intros [] w1 He1. simpl in He1.
  destruct (reordered_saved_array i j ti tj w) as (Hthis&Hdom&Harr).
  destruct He1 as (Ht1&_&Hh1).
  assert (array w1 (tasks (this w1)) = swapped ts i j ti tj) as Harr1.
  { rewrite Ht1. unfold array. rewrite Hh1 by done. apply Harr. }
  split; [by rewrite Ht1, Hthis|].
  destruct (sole_swapped a b ts i j ti tj Hab Ha Hb) as [Ha' Hb'].
  eapply returns_mono.
  { apply (reorderTasks_found a b w1 j i ti tj); rewrite Harr1; by apply sole_find. }
  intros [] w2 He2. simpl in He2.
  destruct (reordered_saved_array j i ti tj w1) as (Hthis2&Hdom2&Harr2).
  destruct He2 as (Ht2&_&Hh2).
  split; [by rewrite Ht2, Hthis2|].
  split; [by rewrite Ht2, Hthis2, Ht1, Hthis|].
  rewrite Ht2. unfold array at 1. rewrite Hh2 by done.
  fold (array (saved (reordered j i ti tj w1))
          (tasks (this (saved (reordered j i ti tj w1))))).
  rewrite Harr2, Harr1. destruct Ha as (?&_), Hb as (?&_).
  by apply swapped_swapped.
Qed.

(** C6.  The [drop] handler is the only caller of [reorderTasks], and it
    calls it with two ids that are not empty and differ.  On two ids that
    differ, [reorderTasks] exchanges the tasks at the first index of each id
    and sets the sort key to ['manual'], and when one of the ids is absent
    it changes nothing: tasks, sort key and storage are as before.  With
    twice the same id the handler makes no call: tasks, sort key and storage
    are as before. *)
Theorem reorderTasks_effect draggedId targetId w :
  let ts := array w (tasks (this w)) in
  (draggedId ≠ "" → targetId ≠ "" → draggedId ≠ targetId →
     onDrop draggedId (Some targetId) w = reorderTasks draggedId targetId w) ∧
  (Forall (λ task, id task ≠ draggedId) ts ∨ Forall (λ task, id task ≠ targetId) ts →
     reorderTasks draggedId targetId w = (Ok tt, w) ∧
     onDrop draggedId (Some targetId) w = (Ok tt, w)) ∧
  (∀ i j ti tj,
     draggedId ≠ targetId →
     list_find (λ task, id task = draggedId) ts = Some (i, ti) →
     list_find (λ task, id task = targetId) ts = Some (j, tj) →
     returns (reorderTasks draggedId targetId) w (λ _ w',
       this w' = set_currentSort "manual" (this w) ∧
       array w' (tasks (this w')) = <[j:=ti]> (<[i:=tj]> ts) ∧
       array w' (tasks (this w')) !! j = Some ti ∧
       array w' (tasks (this w')) !! i = Some tj ∧
       localStorage w' =
         match map_result toJSON (<[j:=ti]> (<[i:=tj]> ts)) with
         | Ok tasksData => Some (JSON_stringify tasksData)
         | Throw _ => localStorage w
         end)) ∧
  onDrop draggedId (Some draggedId) w = (Ok tt, w).
Proof.
  intros ts. split; [|split; [|split]].
  - intros Hd Ht Hne. unfold onDrop, falsy.
    by rewrite !bool_decide_eq_false_2, bool_decide_eq_true_2 by done.
  - intros Habs. pose proof (reorderTasks_absent _ _ w Habs) as Hre.
    split; [exact Hre|]. unfold onDrop. by destruct (_ && _).
  - intros i j ti tj Hne Hi Hj.
    eapply returns_mono; [by apply (reorderTasks_found _ _ w i j ti tj)|].
    intros [] w' He. simpl in He.
    destruct (reordered_saved_array i j ti tj w) as (Hthis&Hdom&Harr).
    destruct He as (Ht&Hs&Hh).
    assert (array w' (tasks (this w')) = swapped ts i j ti tj) as Ha.
    { rewrite Ht. unfold array. rewrite Hh by done. apply Harr. }
    apply list_find_Some in Hi as (Hi&Hidi&_), Hj as (Hj&Hidj&_).
    assert (i ≠ j) as Hij by (intros ->; congruence).
    rewrite Ha. split; [by rewrite Ht|]. split; [done|].
    split; [rewrite swapped_lookup by done; by rewrite decide_True|].
    split.
    { rewrite swapped_lookup by done.
      rewrite decide_False by done. by rewrite decide_True. }
    rewrite Hs. unfold saved.
    assert (array (reordered i j ti tj w) (tasks (this (reordered i j ti tj w)))
            = swapped ts i j ti tj) as ->.
    { unfold reordered, array; simpl. by rewrite lookup_insert_eq. }
    fold (swapped ts i j ti tj). by destruct (map_result toJSON _).
  - unfold onDrop. rewrite (bool_decide_eq_false_2 (draggedId ≠ draggedId)) by auto.
    by rewrite andb_false_r.
Qed.

(** C7.  [load] never throws.  It runs in the constructor, after the field
    initializers, and nowhere else; there, every failure leaves the manager
    with an empty collection: nothing stored, the empty string, a text that
    does not parse, or a record that is rejected (second part).  In any
    world, a text that does not parse or a rejected record gives the empty
    collection, accepted records become the collection, and with nothing
    stored [load] assigns nothing (first part). *)
Theorem load_never_throws e w :
  (∃ w', load e w = (Ok tt, w') ∧
     (localStorage w = None ∨ localStorage w = Some "" → w' = w) ∧
     (∀ s x,
        localStorage w = Some s → s ≠ "" →
        JSON_parse s ≫= map_result (fromJSON e) = Throw x →
        array w' (tasks (this w')) = []) ∧
     (∀ s a,
        localStorage w = Some s → s ≠ "" →
        JSON_parse s ≫= map_result (fromJSON e) = Ok a →
        array w' (tasks (this w')) = a)) ∧
  returns (TaskManager_fields;;; load e)%js w (λ _ w',
    load_fails e (localStorage w) → array w' (tasks (this w')) = []).
Proof.
  split.
  - eexists. split; [apply load_unfold|].
    destruct (localStorage w) as [s|] eqn:Hs.
    + unfold falsy. case_bool_decide as Hempty.
      * subst s. repeat split; try done.
        -- by intros s x [= <-].
        -- by intros s a [= <-].
      * split; [intros [|[= ?]]; done|]. split.
        -- intros s' x [= <-] _ ->. apply installed_array.
        -- intros s' a [= <-] _ ->. apply installed_array.
    + repeat split; try done.
  - unfold TaskManager_fields.
    apply returns_bind, returns_bind, returns_alloc. intros l _.
    apply returns_modify. eexists tt, _. split; [apply load_unfold|].
    simpl. unfold load_fails.
    destruct (localStorage w) as [s|].
    + unfold falsy. case_bool_decide as Hempty.
      * intros _. apply array_insert_eq.
      * intros [?|[x ->]]; [done|]. apply installed_array.
    + intros _. apply array_insert_eq.
Qed.

(** C8.  [getFilteredTasks], for every filter, search text and sort key,
    returns an array other than [this.tasks] and leaves the manager, the
    elements of [this.tasks] with their order and the storage as they are;
    the array it returns holds the selected tasks, in the order that the
    sort gives them there.  [filterByStatus] and [search] change the filter
    and the search text and nothing else. *)
Theorem views_leave_tasks w :
  tasks (this w) ∈ dom (heap w) →
  returns getFilteredTasks w (λ l w',
    l ≠ tasks (this w) ∧ this w' = this w ∧
    heap w' !! tasks (this w) = heap w !! tasks (this w) ∧
    localStorage w' = localStorage w ∧
    array w' l ≡ₚ selection (this w) (array w (tasks (this w)))) ∧
  (∀ status,
     returns (filterByStatus status) w (λ l w',
       l ≠ tasks (this w) ∧ this w' = set_currentFilter status (this w) ∧
       heap w' !! tasks (this w) = heap w !! tasks (this w) ∧
       localStorage w' = localStorage w)) ∧
  (∀ text,
     returns (search text) w (λ l w',
       l ≠ tasks (this w) ∧
       this w' = set_currentSearch (toLowerCase text) (this w) ∧
       heap w' !! tasks (this w) = heap w !! tasks (this w) ∧
       localStorage w' = localStorage w)).
Proof.
  intros Hdom.
  assert (∀ f,
    tasks (f (this w)) = tasks (this w) →
    returns (modify (λ w, set_this (f (this w)) w);;; updateUI;;; getFilteredTasks)%js w
      (λ l w', l ≠ tasks (this w) ∧ this w' = f (this w) ∧
               heap w' !! tasks (this w) = heap w !! tasks (this w) ∧
               localStorage w' = localStorage w)) as Hset.
  { intros f Hf. apply returns_bind, returns_modify.
    apply returns_bind. eapply returns_mono; [apply updateUI_spec|].
    intros [] w1 He1. eapply returns_mono; [apply getFilteredTasks_spec|].
    intros l w2 (Hl&He2&_).
    pose proof (extends_dom _ _ He1) as Hd1.
    pose proof (extends_trans _ _ _ He1 He2) as (Ht&Hs&Hh). simpl in *.
    split; [set_solver|]. split; [done|]. split; [by apply Hh|done]. }
  split; [|split].
  - eapply returns_mono; [apply getFilteredTasks_spec|].
    intros l w' (Hl&(Ht&Hs&Hh)&Ha).
    split; [set_solver|]. split; [done|]. split; [by apply Hh|]. split; [done|].
    rewrite Ha. unfold selection, view. simpl.
    case_bool_decide; [apply sort_Permutation|done].
  - intros status. by apply (Hset (set_currentFilter status)).
  - intros text. by apply (Hset (set_currentSearch (toLowerCase text))).
Qed.

End manager_properties.

(** ** More on Task *)

Section task_more.
Context `{!JSRuntime}.

(** X1.  [update] never changes the id and the creation date of the task,
    whatever the record holds and whether it returns or throws; a field
    that the record leaves out keeps its value, and the color changes only
    with the status. *)
Theorem update_frame pd t r t' :
  update pd t = (r, t') →
  id t' = id t ∧ createdAt t' = createdAt t ∧
  (p_title pd = None → title t' = title t) ∧
  (p_description pd = None → description t' = description t) ∧
  (p_status pd = None → status t' = status t ∧ color t' = color t) ∧
  (p_priority pd = None → priority t' = priority t).
Proof.
  rewrite update_unfold.
  destruct pd as [[ttl|] [d|] [st|] [p|]];
    unfold title_rejected, status_rejected, after_priority, after_status,
      after_description, after_title; simpl;
    repeat case_match; intros [= <- <-]; simpl; repeat split; done.
Qed.

(** X2.  [update] is idempotent: applied again with the same record to the
    task it left, it ends the same way (returns, or throws the same error)
    and leaves that task as it is. *)
Theorem update_idempotent pd t r t' :
  update pd t = (r, t') → update pd t' = (r, t').
Proof.
  rewrite !update_unfold.
  destruct pd as [[ttl|] [d|] [st|] [p|]];
    unfold title_rejected, status_rejected, after_priority, after_status,
      after_description, after_title; simpl;
    repeat case_match; intros [= <- <-]; reflexivity.
Qed.

(** X3.  [fromJSON] checks a record as the constructor checks its
    arguments and nothing more: a blank title is rejected, then a status
    outside the closed set; every other record gives a task with the id,
    the priority and the color of the record as they are, the title and the
    description trimmed, and the date that [new Date] reads, valid or not. *)
Theorem fromJSON_checks e data :
  (blank (d_title data) = true → fromJSON e data = Throw (Error msg_title)) ∧
  (blank (d_title data) = false → d_status data ∉ validStatuses →
   fromJSON e data = Throw (Error msg_status)) ∧
  (blank (d_title data) = false → d_status data ∈ validStatuses →
   fromJSON e data =
     Ok (mkTask (d_id data) (trim (d_title data)) (trim (d_description data))
           (d_status data) (d_priority data) (Date_of_string (d_createdAt data))
           (d_color data))).
Proof.
  repeat split.
  - intros Hb. by apply fromJSON_Throw, validateInputs_blank.
  - intros Hb Hst. by apply fromJSON_Throw, validateInputs_status.
  - intros Hb Hst. apply fromJSON_Ok. split; [|done]. by apply validateInputs_Ok.
Qed.

(** X4.  The color function is defined on each of the four statuses that
    [validateInputs] accepts and gives distinct statuses distinct colors.
    So every task that the constructor builds has a color, and two such
    tasks have the same color exactly when they have the same status. *)
Theorem getColorByStatus_closed_set :
  (∀ st, st ∈ validStatuses → is_Some (getColorByStatus st)) ∧
  (∀ st st', st ∈ validStatuses → st' ∈ validStatuses →
     getColorByStatus st = getColorByStatus st' → st = st') ∧
  (∀ e ttl d st p t e' ttl' d' st' p' t',
     Task_new e ttl d st p = Ok t → Task_new e' ttl' d' st' p' = Ok t' →
     is_Some (color t) ∧ (color t = color t' ↔ status t = status t')).
Proof.
  assert (∀ st st', st ∈ validStatuses → st' ∈ validStatuses →
    getColorByStatus st = getColorByStatus st' → st = st') as Hinj.
  { intros st st'. unfold validStatuses. rewrite !elem_of_cons, !elem_of_nil.
    intros [->|[->|[->|[->|[]]]]] [->|[->|[->|[->|[]]]]] Hc;
      vm_compute in Hc; done. }
  split; [apply getColorByStatus_valid|]. split; [exact Hinj|].
  intros e ttl d st p t e' ttl' d' st' p' t'.
  intros [[_ Hst]%validateInputs_Ok ->]%Task_new_Ok
         [[_ Hst']%validateInputs_Ok ->]%Task_new_Ok. simpl.
  split; [by apply getColorByStatus_valid|]. split.
  - by apply Hinj.
  - by intros ->.
Qed.

End task_more.
(** ** The collection *)

Section collection_properties.
Context `{!JSRuntime}.

Lemma saved_storage w :
  localStorage (saved w) = stored_after_save (collection w) (localStorage w).
Proof. unfold saved, stored_after_save, collection. by destruct (map_result toJSON _). Qed.

Lemma allocated_with_tasks a w : allocated (with_tasks a w).
Proof. unfold allocated, with_tasks; simpl. apply elem_of_dom. by rewrite lookup_insert_eq. Qed.

Lemma collection_with_tasks a w : collection (with_tasks a w) = a.
Proof. apply array_insert_eq. Qed.

(** A world that extends the one [save] leaves holds what was saved. *)
Lemma extends_saved w w' :
  allocated w → extends (saved w) w' →
  this w' = this w ∧ allocated w' ∧ collection w' = collection w ∧
  localStorage w' = stored_after_save (collection w) (localStorage w).
Proof.
  intros Ha He. destruct (saved_extends w) as [Hheap Hthis].
  assert (tasks (this w) ∈ dom (heap (saved w))) as Hdom by (by rewrite Hheap).
  pose proof (extends_array _ _ _ He Hdom) as Harr.
  pose proof (extends_dom _ _ He _ Hdom) as Hdom'.
  destruct He as (Ht'&Hs'&_).
  unfold allocated, collection in *.
  rewrite Ht', Hthis, Hs', saved_storage.
  split; [done|]. split; [done|]. split; [|done].
  rewrite Harr. unfold array. by rewrite Hheap.
Qed.

Lemma committed_extends a w w1 w' :
  this w1 = this w → localStorage w1 = localStorage w → allocated w1 →
  collection w1 = a → extends (saved w1) w' → committed a w w'.
Proof.
  intros Ht Hs Ha Hc He. destruct (extends_saved _ _ Ha He) as (?&?&?&?).
  unfold committed. repeat split; congruence.
Qed.

Lemma committed_with_tasks a w w' :
  extends (saved (with_tasks a w)) w' → committed a w w'.
Proof.
  apply committed_extends; auto using allocated_with_tasks, collection_with_tasks.
Qed.

Lemma returns_commit {A} (k : M World A) w (Q : A → World → Prop) :
  (∀ w', extends (saved w) w' → returns k w' Q) →
  returns (save;;; updateUI;;; k)%js w Q.
Proof.
  intros Hk. apply returns_bind, returns_save, returns_bind.
  eapply returns_mono; [apply updateUI_spec|]. auto.
Qed.

Lemma returns_save_updateUI w (Q : unit → World → Prop) :
  (∀ w', extends (saved w) w' → Q tt w') →
  returns (save;;; updateUI)%js w Q.
Proof.
  intros HQ. apply returns_bind, returns_save.
  eapply returns_mono; [apply updateUI_spec|]. intros []. auto.
Qed.

Lemma returns_findById id' w (Q : option (nat * Task) → World → Prop) :
  Q (list_find (λ task, id task = id') (collection w)) w →
  returns (findById id') w Q.
Proof. intros. by eexists _, _. Qed.

Lemma add_spec task w :
  returns (add task) w (λ r w', r = task ∧ committed (collection w ++ [task]) w w').
Proof.
  unfold add, array_push. apply returns_bind, returns_get.
  apply returns_bind, returns_bind, returns_read, returns_write.
  apply returns_commit. intros w' He. apply returns_ret. split; [done|].
  by apply committed_with_tasks.
Qed.

Lemma remove_absent id' w :
  list_find (λ task, id task = id') (collection w) = None →
  remove id' w = (Ok false, w).
Proof.
  intros Hf. unfold remove, bind, get, findIndex. unfold collection in Hf.
  simpl. by rewrite Hf.
Qed.

Lemma remove_found id' w i t :
  list_find (λ task, id task = id') (collection w) = Some (i, t) →
  returns (remove id') w (λ r w', r = true ∧ committed (delete i (collection w)) w w').
Proof.
  intros Hf. unfold remove. apply returns_bind, returns_get. simpl.
  unfold collection in Hf. rewrite (findIndex_found _ _ _ _ Hf), Nat2Z.id.
  rewrite bool_decide_eq_false_2 by lia.
  apply returns_bind, returns_write, returns_commit.
  intros w' He. apply returns_ret. split; [done|]. by apply committed_with_tasks.
Qed.

Lemma TaskManager_update_absent id' pd w :
  list_find (λ task, id task = id') (collection w) = None →
  TaskManager_update id' pd w = (Ok false, w).
Proof.
  intros Hf. unfold TaskManager_update, bind, findById, get, ret.
  unfold collection in Hf. simpl. by rewrite Hf.
Qed.

Lemma TaskManager_update_Throw id' pd w i task x task' :
  list_find (λ task, id task = id') (collection w) = Some (i, task) →
  update pd task = (Throw x, task') →
  TaskManager_update id' pd w = (Ok false, with_tasks (<[i:=task']> (collection w)) w).
Proof.
  intros Hf Hu. unfold TaskManager_update, bind, findById, get, ret, try_catch, call_on.
  unfold collection in Hf. simpl. rewrite Hf. by rewrite Hu.
Qed.

Lemma TaskManager_update_Ok id' pd w i task task' :
  list_find (λ task, id task = id') (collection w) = Some (i, task) →
  update pd task = (Ok tt, task') →
  returns (TaskManager_update id' pd) w (λ r w',
    r = true ∧ committed (<[i:=task']> (collection w)) w w').
Proof.
  intros Hf Hu.
  destruct (returns_commit (ret true) (with_tasks (<[i:=task']> (collection w)) w)
    (λ r w', r = true ∧ committed (<[i:=task']> (collection w)) w w'))
    as (r&w'&Hrun&HQ).
  { intros w' He. apply returns_ret. split; [done|]. by apply committed_with_tasks. }
  exists r, w'. split; [|done].
  unfold TaskManager_update, bind, findById, get, ret, try_catch, call_on in *.
  unfold collection in Hf. simpl in *. rewrite Hf. rewrite Hu. simpl.
  unfold with_tasks, collection in Hrun. by rewrite Hrun.
Qed.

(** X5.  [add] puts the task at the end of the collection, saves, and
    returns the task it was given; the task is then the one [findById]
    returns for its id, unless an older task has the same id: that task is
    still the one returned, as ids are not compared when a task is added. *)
Theorem add_then_findById task w :
  returns (let! added := add task in
           let! found := findById (id task) in
           ret (added, found))%js w (λ '(added, found) w',
    added = task ∧
    committed (collection w ++ [task]) w w' ∧
    found =
      match list_find (λ t, id t = id task) (collection w) with
      | Some older => Some older
      | None => Some (length (collection w), task)
      end).
Proof.
  apply returns_bind. eapply returns_mono; [apply add_spec|].
  intros r w' [-> Hc]. apply returns_bind, returns_findById, returns_ret.
  split; [done|]. split; [done|].
  destruct Hc as (_&_&->&_).
  destruct (list_find _ (collection w)) as [[i t]|] eqn:Hf.
  - by apply list_find_app_l.
  - rewrite list_find_app_r by done. simpl. by rewrite decide_True.
Qed.

(** X6.  [remove] deletes the first task that has the id, and only that
    one: the tasks before it and after it keep their order, and the
    collection is saved; it returns [true].  When no task has the id it
    returns [false] and changes nothing, the storage included. *)
Theorem remove_first_match id' w :
  match list_find (λ task, id task = id') (collection w) with
  | Some (i, _) =>
      returns (remove id') w (λ r w',
        r = true ∧ committed (take i (collection w) ++ drop (S i) (collection w)) w w')
  | None => remove id' w = (Ok false, w)
  end.
Proof.
  destruct (list_find _ _) as [[i t]|] eqn:Hf.
  - rewrite <-delete_take_drop. by eapply remove_found.
  - by apply remove_absent.
Qed.

End collection_properties.
Section collection_composition.
Context `{!JSRuntime}.

Lemma map_result_app {A B} (f : A → Result B) l k :
  map_result f (l ++ k) =
    l' ← map_result f l; k' ← map_result f k; Ok (l' ++ k')%list.
Proof.
  induction l as [|x l IH]; simpl.
  - by destruct (map_result f k).
  - destruct (f x) as [y|]; simpl; [|done]. rewrite IH.
    destruct (map_result f l) as [l'|]; simpl; [|done].
    by destruct (map_result f k).
Qed.

Lemma map_result_Throw {A B} (f : A → Result B) l x e :
  x ∈ l → f x = Throw e → ∃ e', map_result f l = Throw e'.
Proof.
  intros Hx Hf. induction Hx as [x l|x y l Hx IH]; simpl.
  - rewrite Hf. by eexists.
  - destruct (f y); simpl; [|by eexists].
    destruct (IH Hf) as [e' ->]. by eexists.
Qed.

(** What is stored after the tasks [a ++ k] are saved and then the tasks [a]. *)
Lemma stored_after_save_app a k before :
  stored_after_save a (stored_after_save (a ++ k) before) = stored_after_save a before.
Proof.
  unfold stored_after_save. rewrite map_result_app.
  by destruct (map_result toJSON a).
Qed.

Lemma update_keeps pd t r t' :
  update pd t = (r, t') → id t' = id t ∧ createdAt t' = createdAt t.
Proof.
  rewrite update_unfold.
  destruct pd as [[ttl|] [d|] [st|] [p|]];
    unfold title_rejected, status_rejected, after_priority, after_status,
      after_description, after_title; simpl;
    repeat case_match; by intros [= <- <-].
Qed.

(** X7.  Removing a task just added, by its id, gives back the collection
    as it was before the two calls, provided no task had that id: [remove]
    then finds the added task, at the end. *)
Theorem add_then_remove task w :
  Forall (λ t, id t ≠ id task) (collection w) →
  returns (add task;;; remove (id task))%js w (λ r w',
    r = true ∧ committed (collection w) w w').
Proof.
  intros Hfresh. apply returns_bind. eapply returns_mono; [apply add_spec|].
  intros r w1 [-> (Ht1&_&Hc1&Hs1)].
  assert (list_find (λ t, id t = id task) (collection w1)
          = Some (length (collection w), task)) as Hf.
  { rewrite Hc1, list_find_app_r by (by apply list_find_None).
    simpl. by rewrite decide_True. }
  eapply returns_mono; [by eapply remove_found|].
  intros r w' [-> (Ht&Ha&Hc&Hs)]. split; [done|].
  rewrite Hc1 in Hc, Hs. rewrite delete_middle, app_nil_r in Hc.
  rewrite delete_middle, app_nil_r, Hs1, stored_after_save_app in Hs.
  repeat split; [congruence|done..].
Qed.

(** X8.  After [remove] has deleted a task, [findById] with the same id
    returns the next task that has this id; it returns [undefined] exactly
    when the id was the id of one task only. *)
Theorem remove_then_findById id' w i t :
  list_find (λ task, id task = id') (collection w) = Some (i, t) →
  returns (remove id';;; findById id')%js w (λ found w',
    found = list_find (λ task, id task = id') (delete i (collection w)) ∧
    (found = None ↔ exactly_one id' (collection w))).
Proof.
  intros Hf. apply returns_bind. eapply returns_mono; [by eapply remove_found|].
  intros r w' [-> (_&_&Hc&_)]. apply returns_findById. rewrite Hc.
  split; [done|]. apply list_find_Some in Hf as (Hi&Hid&Hmin).
  rewrite list_find_None, Forall_lookup. split.
  - intros Hnone. exists i, t. repeat split; [done..|].
    intros k t' Hk Hk'. destruct (decide (k = i)) as [|Hne]; [done|]. exfalso.
    destruct (decide (k < i)%nat) as [Hlt|Hge].
    + by apply (Hmin k t').
    + apply (Hnone (pred k) t'); [|done].
      rewrite list_lookup_delete_ge by lia.
      by replace (S (pred k)) with k by lia.
  - intros (i0&t0&_&_&Hu) j y Hj Hy.
    assert (i = i0) as <- by eauto.
    destruct (decide (j < i)%nat).
    + rewrite list_lookup_delete_lt in Hj by done.
      specialize (Hu _ _ Hj Hy). lia.
    + rewrite list_lookup_delete_ge in Hj by lia.
      specialize (Hu _ _ Hj Hy). lia.
Qed.

(** X9.  [TaskManager.update] never throws and never changes the number,
    the order, the ids and the dates of the tasks.  It returns [true]
    exactly when a task has the id and [Task.update] accepts the record on
    the first such task; the collection is saved in that case, and the
    storage is not written when it returns [false]. *)
Theorem TaskManager_update_result id' pd w :
  ∃ r w',
    TaskManager_update id' pd w = (Ok r, w') ∧
    this w' = this w ∧
    id <$> collection w' = id <$> collection w ∧
    createdAt <$> collection w' = createdAt <$> collection w ∧
    (r = true ↔
       ∃ i task task',
         list_find (λ task, id task = id') (collection w) = Some (i, task) ∧
         update pd task = (Ok tt, task')) ∧
    localStorage w' =
      if r then stored_after_save (collection w') (localStorage w)
      else localStorage w.
Proof.
  destruct (list_find (λ task, id task = id') (collection w))
    as [[i task]|] eqn:Hf.
  - destruct (update pd task) as [[[]|x] task'] eqn:Hu.
    + destruct (TaskManager_update_Ok _ _ _ _ _ _ Hf Hu)
        as (r&w'&Hrun&->&Ht&_&Hc&Hs).
      pose proof (update_keeps _ _ _ _ Hu) as [Hid Hdate].
      apply list_find_Some in Hf as (Hi&_).
      exists true, w'. rewrite Hc. repeat split; try done.
      * rewrite list_fmap_insert, Hid. by apply list_insert_id, list_lookup_fmap_Some_2.
      * rewrite list_fmap_insert, Hdate.
        by apply list_insert_id, list_lookup_fmap_Some_2.
      * eauto.
    + pose proof (update_keeps _ _ _ _ Hu) as [Hid Hdate].
      pose proof Hf as (Hi&_)%list_find_Some.
      eexists false, _. split; [by eapply TaskManager_update_Throw|].
      rewrite collection_with_tasks. repeat split; try done.
      * rewrite list_fmap_insert, Hid. by apply list_insert_id, list_lookup_fmap_Some_2.
      * rewrite list_fmap_insert, Hdate.
        by apply list_insert_id, list_lookup_fmap_Some_2.
      * intros (?&?&?&[= <- <-]&?). congruence.
  - exists false, w. split; [by apply TaskManager_update_absent|].
    repeat split; try done. by intros (?&?&?&?&?).
Qed.

(** X10.  When [TaskManager.update] is called with a record whose title
    is accepted and whose status is outside the closed set, it returns
    [false] and saves nothing, but the task of the collection already has
    the new title (and the new description, when the record has one): what
    the page shows and what is stored differ until the next save. *)
Theorem TaskManager_update_rejected_status id' pd w i task :
  list_find (λ task, id task = id') (collection w) = Some (i, task) →
  title_rejected pd = false → status_rejected pd = true →
  ∃ w',
    TaskManager_update id' pd w = (Ok false, w') ∧
    this w' = this w ∧ localStorage w' = localStorage w ∧
    collection w' = <[i := after_description pd (after_title pd task)]> (collection w).
Proof.
  intros Hf Ht Hs. eexists. split.
  - eapply TaskManager_update_Throw; [done|]. by rewrite update_unfold, Ht, Hs.
  - by rewrite collection_with_tasks.
Qed.

(** X11.  [save] writes all tasks or nothing: one task whose date is
    invalid makes [save] leave the storage as it is, so that the task that
    [add] then appends to the collection is not stored either. *)
Theorem invalid_date_blocks_save t0 task w :
  t0 ∈ collection w → createdAt t0 = Invalid →
  save w = (Ok tt, w) ∧
  returns (add task) w (λ _ w',
    collection w' = (collection w ++ [task])%list ∧
    localStorage w' = localStorage w).
Proof.
  intros Hin Hdate.
  assert (∀ k before, stored_after_save (collection w ++ k) before = before) as Hblocked.
  { intros k before. unfold stored_after_save.
    destruct (map_result_Throw toJSON (collection w ++ k) t0 RangeError) as [x ->];
      [apply elem_of_app; by left|by apply toJSON_Invalid|done]. }
  split.
  - rewrite save_unfold. f_equal. destruct w as [h m s].
    pose proof (saved_storage (mkWorld h m s)) as Hs.
    pose proof (saved_extends (mkWorld h m s)) as [Hh Hm].
    rewrite <-(app_nil_r (collection _)), Hblocked in Hs.
    destruct (saved _); simpl in *; congruence.
  - eapply returns_mono; [apply add_spec|].
    intros r w' [_ (_&_&Hc&Hs)]. by rewrite Hs, Hblocked.
Qed.

End collection_composition.
Section persistence.
Context `{!JSRuntime}.

(** *** getStats *)

Lemma getStats_foldl ts (m : gmap string Z) k :
  foldl (λ stats task,
           let status := status task in
           match stats !! status with
           | Some n => <[status := n + 1]> stats
           | None => stats
           end) m ts !! k
  = (λ n, n + count_status k ts) <$> m !! k.
Proof.
  revert m. induction ts as [|t ts IH]; intros m; simpl.
  - unfold count_status; simpl. destruct (m !! k); simpl; [|done].
    apply (f_equal Some). lia.
  - rewrite IH. unfold count_status. rewrite filter_cons.
    destruct (decide (status t = k)) as [<-|Hne].
    + cbn [length]. rewrite Nat2Z.inj_succ.
      destruct (m !! status t) as [n|] eqn:Hm.
      * rewrite lookup_insert_eq. cbn [fmap option_fmap option_map]. apply (f_equal Some). lia.
      * by rewrite Hm.
    + destruct (m !! status t) as [n|]; [|done].
      by rewrite lookup_insert_ne.
Qed.

Lemma count_status_valid ts :
  Forall (λ t, status t ∈ validStatuses) ts →
  count_status "à faire" ts + count_status "en cours" ts +
  count_status "terminée" ts + count_status "bloquée" ts = Z.of_nat (length ts) ∧
  count_status "all" ts = 0.
Proof.
  unfold count_status, validStatuses.
  induction 1 as [|t ts Ht _ [IH1 IH2]]; [done|].
  rewrite !filter_cons.
  rewrite !elem_of_cons, elem_of_nil in Ht.
  destruct Ht as [->|[->|[->|[->|[]]]]];
    repeat case_decide; try done;
    cbn [length]; rewrite ?Nat2Z.inj_succ; lia.
Qed.

(** X12.  The statistics count every task once: [all] is the number of
    tasks, each of the four statuses has the number of the tasks with that
    status, and, the status of every task being one of the four, the four
    counts add up to [all].  [getStats] changes nothing. *)
Theorem getStats_counts w :
  Forall (λ t, status t ∈ validStatuses) (collection w) →
  returns getStats w (λ stats w',
    w' = w ∧
    stats !! "all" = Some (Z.of_nat (length (collection w))) ∧
    (∀ st, st ∈ validStatuses → stats !! st = Some (count_status st (collection w))) ∧
    (∀ k, is_Some (stats !! k) ↔ k ∈ "all" :: validStatuses) ∧
    count_status "à faire" (collection w) + count_status "en cours" (collection w) +
    count_status "terminée" (collection w) + count_status "bloquée" (collection w)
    = Z.of_nat (length (collection w))).
Proof.
  intros Hvalid. destruct (count_status_valid _ Hvalid) as [Hsum Hall].
  unfold getStats. apply returns_bind, returns_get, returns_ret. fold (collection w).
  split; [done|]. split; [|split; [|split; [|done]]].
  - rewrite getStats_foldl, Hall. simpl. apply (f_equal Some). lia.
  - intros st. unfold validStatuses. rewrite !elem_of_cons, elem_of_nil.
    intros [->|[->|[->|[->|[]]]]]; by rewrite getStats_foldl.
  - intros k. rewrite getStats_foldl, fmap_is_Some. unfold validStatuses.
    rewrite !elem_of_cons, elem_of_nil. unfold is_Some.
    setoid_rewrite lookup_insert_Some. setoid_rewrite lookup_insert_Some.
    setoid_rewrite lookup_insert_Some. setoid_rewrite lookup_insert_Some.
    setoid_rewrite lookup_singleton_Some. split.
    + intros [n [[<- _]|[_ [[<- _]|[_ [[<- _]|[_ [[<- _]|[_ [<- _]]]]]]]]]]; auto 10.
    + intros [->|[->|[->|[->|[->|[]]]]]]; eauto 20.
Qed.

(** *** save and load *)

Lemma fromJSON_of_toJSON e t data :
  well_formed t → toJSON t = Ok data →
  (∀ ms, createdAt t = Valid ms → Date_of_string (iso_of_ms ms) = Valid ms) →
  fromJSON e data = Ok t.
Proof.
  intros (Hb&Ht&Hd&Hs) (ms&Hms&->)%toJSON_Ok Hdate. apply fromJSON_Ok; simpl.
  split; [by apply validateInputs_Ok|].
  rewrite Ht, Hd, (Hdate _ Hms), <-Hms. by destruct t.
Qed.

Lemma map_fromJSON_of_toJSON e ts tasksData :
  Forall well_formed ts →
  (∀ t ms, t ∈ ts → createdAt t = Valid ms → Date_of_string (iso_of_ms ms) = Valid ms) →
  map_result toJSON ts = Ok tasksData →
  map_result (fromJSON e) tasksData = Ok ts.
Proof.
  intros Hwf Hdate Hts. apply map_result_Ok in Hts. apply map_result_Ok.
  induction Hts as [|t d ts ds Ht Hts IH]; [constructor|].
  apply Forall_cons in Hwf as [Hwt Hwf]. constructor.
  - eapply fromJSON_of_toJSON; [done..|]. intros ms. apply Hdate. by left.
  - apply IH; [done|]. intros t' ms ?. apply Hdate. by right.
Qed.

(** X13.  What [save] stores, [load] reads back: after [save] then
    [load], the collection holds the same tasks in the same order, for
    tasks as the class builds them with valid dates, when the runtime reads
    back the ISO dates and the JSON text it writes for them. *)
Theorem save_then_load e w tasksData :
  Forall well_formed (collection w) →
  map_result toJSON (collection w) = Ok tasksData →
  (∀ t ms, t ∈ collection w → createdAt t = Valid ms →
           Date_of_string (iso_of_ms ms) = Valid ms) →
  JSON_stringify tasksData ≠ "" →
  JSON_parse (JSON_stringify tasksData) = Ok tasksData →
  returns (save;;; load e)%js w (λ _ w',
    collection w' = collection w ∧
    localStorage w' = Some (JSON_stringify tasksData) ∧
    currentFilter (this w') = currentFilter (this w) ∧
    currentSearch (this w') = currentSearch (this w) ∧
    currentSort (this w') = currentSort (this w)).
Proof.
  intros Hwf Hjson Hdate Hne Hparse.
  apply returns_bind, returns_save.
  assert (saved w = set_localStorage (Some (JSON_stringify tasksData)) w) as ->.
  { unfold saved. fold (collection w). by rewrite Hjson. }
  eexists tt, _. split; [apply load_unfold|]. simpl.
  unfold falsy. rewrite bool_decide_eq_false_2 by done.
  rewrite Hparse. simpl.
  rewrite (map_fromJSON_of_toJSON e _ _ Hwf Hdate Hjson).
  unfold collection. by rewrite installed_array.
Qed.

(** *** clearAll, addSampleData and the constructor *)

Lemma Task_new_accepted e ttl d st p :
  blank ttl = false → st ∈ validStatuses →
  Task_new e ttl (Some d) (Some st) (Some p) =
    Ok (mkTask (generateId e) (trim ttl) (trim d) st p (Valid (new_Date e))
          (getColorByStatus st)).
Proof. intros ??. apply Task_new_Ok. split; [|done]. by apply validateInputs_Ok. Qed.

Lemma forEach_array_push l ts w :
  l ∈ dom (heap w) →
  returns (forEach (array_push l) ts) w (λ _ w',
    this w' = this w ∧ localStorage w' = localStorage w ∧
    l ∈ dom (heap w') ∧ array w' l = (array w l ++ ts)%list).
Proof.
  revert w. induction ts as [|t ts IH]; intros w Hl; simpl.
  - apply returns_ret. by rewrite app_nil_r.
  - apply returns_bind. unfold array_push at 1.
    apply returns_bind, returns_read, returns_write.
    eapply returns_mono; [apply IH|].
    + simpl. set_solver.
    + intros [] w' (?&?&?&Ha). rewrite array_insert_eq in Ha.
      by rewrite <-app_assoc in Ha.
Qed.

Lemma addSampleData_nonempty es w :
  collection w ≠ [] → addSampleData es w = (Ok tt, w).
Proof.
  intros Hne. unfold addSampleData, bind, get. simpl. fold (collection w).
  rewrite bool_decide_eq_false_2; [done|]. by destruct (collection w).
Qed.

Lemma addSampleData_empty es w :
  allocated w → collection w = [] →
  Forall (λ ttl, blank ttl = false) sample_titles →
  returns (addSampleData es) w (λ _ w',
    this w' = this w ∧ allocated w' ∧
    localStorage w' = stored_after_save (collection w') (localStorage w) ∧
    samples es (collection w')).
Proof.
  intros Hal Hempty Hs. unfold sample_titles in Hs.
  repeat (apply Forall_cons in Hs as [? Hs]).
  unfold addSampleData. apply returns_bind, returns_get. simpl.
  fold (collection w). rewrite Hempty. simpl.
  rewrite !Task_new_accepted by (done || unfold validStatuses; set_solver).
  simpl. apply returns_bind, returns_ret.
  apply returns_bind.
  eapply returns_mono; [by apply forEach_array_push|].
  intros [] w1 (Ht&Hst&Hd&Ha). fold (collection w) in Ha. rewrite Hempty in Ha.
  apply returns_save.
  destruct (saved_extends w1) as [Hh Hth].
  assert (collection (saved w1) = collection w1) as Hc.
  { unfold collection, array. by rewrite Hh, Hth. }
  rewrite app_nil_l, <-Ht in Ha. fold (collection w1) in Ha.
  rewrite saved_storage, Hc, Hst, Hth. unfold allocated. rewrite Hh, Hth, Ha.
  rewrite Ht. unfold samples. simpl. repeat split; try done. repeat constructor.
Qed.

End persistence.
Section construction.
Context `{!JSRuntime}.

Lemma allocated_installed a w : allocated (installed a w).
Proof.
  unfold allocated, installed; simpl. apply elem_of_dom. by rewrite lookup_insert_eq.
Qed.

Lemma load_spec e w :
  returns (load e) w (λ _ w',
    (allocated w → allocated w') ∧ localStorage w' = localStorage w ∧
    currentFilter (this w') = currentFilter (this w) ∧
    currentSearch (this w') = currentSearch (this w) ∧
    currentSort (this w') = currentSort (this w) ∧
    collection w' = default (collection w) (loaded e (localStorage w))).
Proof.
  eexists tt, _. split; [apply load_unfold|]. unfold loaded.
  destruct (localStorage w) as [savedTasks|] eqn:Hs; [|by rewrite Hs].
  destruct (falsy savedTasks); [by rewrite Hs|].
  destruct (JSON_parse savedTasks ≫= map_result (fromJSON e)) as [a|x];
    (split; [intros _; apply allocated_installed|]);
    repeat split; try done; apply installed_array.
Qed.

Lemma clearAll_spec w :
  returns clearAll w (λ _ w',
    allocated w' ∧ collection w' = [] ∧
    localStorage w' = Some (JSON_stringify []) ∧
    currentFilter (this w') = currentFilter (this w) ∧
    currentSearch (this w') = currentSearch (this w) ∧
    currentSort (this w') = currentSort (this w)).
Proof.
  unfold clearAll. apply returns_bind, returns_alloc. intros l Hl.
  apply returns_bind, returns_modify.
  match goal with |- returns _ ?w0 _ => set (w1 := w0) end.
  assert (collection w1 = []) as Hc1.
  { unfold collection, array; simpl. by rewrite lookup_insert_eq. }
  assert (allocated w1) as Ha1.
  { unfold allocated; simpl. apply elem_of_dom. by rewrite lookup_insert_eq. }
  apply returns_save_updateUI.
  intros w' (Ht&Ha&Hc&Hs)%extends_saved; [|done].
  rewrite Hs, Hc, Ht, Hc1. by unfold stored_after_save.
Qed.

Lemma TaskManager_new_spec e es w :
  Forall (λ ttl, blank ttl = false) sample_titles →
  returns (TaskManager_new e es) w (λ _ w',
    currentFilter (this w') = "all" ∧ currentSearch (this w') = "" ∧
    currentSort (this w') = "date-desc" ∧ allocated w' ∧
    match loaded e (localStorage w) with
    | Some (t :: a) => collection w' = t :: a ∧ localStorage w' = localStorage w
    | _ =>
        samples es (collection w') ∧
        localStorage w' = stored_after_save (collection w') (localStorage w)
    end).
Proof.
  intros Hs. unfold TaskManager_new, TaskManager_fields.
  apply returns_bind, returns_bind, returns_alloc. intros l Hl.
  apply returns_modify.
  match goal with |- returns _ ?w0 _ => set (w1 := w0) end.
  assert (collection w1 = []) as Hc1.
  { unfold collection, array; simpl. by rewrite lookup_insert_eq. }
  assert (allocated w1) as Ha1.
  { unfold allocated; simpl. apply elem_of_dom. by rewrite lookup_insert_eq. }
  assert (localStorage w1 = localStorage w) as Hst1 by done.
  assert (this w1 = mkTaskManager l "all" "" "date-desc") as Hthis1 by done.
  clearbody w1. apply returns_bind.
  eapply returns_mono; [apply load_spec|].
  intros [] w2 (Hal&Hst&Hf&Hsearch&Hsort&Hc).
  rewrite Hthis1 in Hf, Hsearch, Hsort. simpl in Hf, Hsearch, Hsort.
  rewrite Hst1 in Hst, Hc. rewrite Hc1 in Hc. specialize (Hal Ha1).
  destruct (loaded e (localStorage w)) as [[|t a]|]; simpl in Hc.
  - eapply returns_mono; [by apply addSampleData_empty|].
    intros [] w' (Ht&Ha&Hs'&Hsamples). rewrite Ht, Hs', Hst. by split_and!.
  - eexists tt, w2. split; [|done]. apply addSampleData_nonempty. by rewrite Hc.
  - eapply returns_mono; [by apply addSampleData_empty|].
    intros [] w' (Ht&Ha&Hs'&Hsamples). rewrite Ht, Hs', Hst. by split_and!.
Qed.

(** X14.  A new manager is never empty.  It holds the tasks that [load]
    reads from the storage when there is at least one, and leaves the
    storage as it is; in every other case (nothing stored, a text that does
    not parse, a record that is rejected, or a stored empty array) it holds
    the six samples, with the statuses and priorities of the source, and
    has saved them.  No filter and no search text is set, and the sort key
    is ['date-desc']. *)
Theorem TaskManager_new_never_empty e es w :
  Forall (λ ttl, blank ttl = false) sample_titles →
  returns (TaskManager_new e es) w (λ _ w',
    collection w' ≠ [] ∧
    this w' = mkTaskManager (tasks (this w')) "all" "" "date-desc" ∧
    match loaded e (localStorage w) with
    | Some (t :: a) => collection w' = t :: a ∧ localStorage w' = localStorage w
    | _ =>
        samples es (collection w') ∧
        localStorage w' = stored_after_save (collection w') (localStorage w)
    end).
Proof.
  intros Hs. eapply returns_mono; [by apply TaskManager_new_spec|].
  intros [] w' (Hf&Hsearch&Hsort&_&Hc). split; [|split; [|done]].
  - destruct (loaded e (localStorage w)) as [[|t a]|];
      destruct Hc as [Hc _]; try (by rewrite Hc);
      destruct Hc as [Hlen _]; intros Hnil; by rewrite Hnil in Hlen.
  - destruct (this w'); simpl in *. congruence.
Qed.

(** X15.  [clearAll] empties the collection and stores the empty array,
    keeping the filter, the search text and the sort key.  The next manager
    that is built on that storage does not stay empty: it holds the six
    samples again. *)
Theorem clearAll_then_new e es w :
  Forall (λ ttl, blank ttl = false) sample_titles →
  JSON_parse (JSON_stringify []) = Ok [] →
  returns clearAll w (λ _ w1,
    collection w1 = [] ∧ localStorage w1 = Some (JSON_stringify []) ∧
    currentFilter (this w1) = currentFilter (this w) ∧
    currentSearch (this w1) = currentSearch (this w) ∧
    currentSort (this w1) = currentSort (this w) ∧
    returns (TaskManager_new e es) w1 (λ _ w', samples es (collection w'))).
Proof.
  intros Hs Hparse. eapply returns_mono; [apply clearAll_spec|].
  intros [] w1 (_&Hc&Hst&?&?&?). repeat split; try done.
  eapply returns_mono; [by apply TaskManager_new_spec|].
  intros [] w' (_&_&_&_&Hl). rewrite Hst in Hl. unfold loaded in Hl.
  rewrite Hparse in Hl. simpl in Hl.
  by destruct (falsy _); destruct Hl.
Qed.

End construction.
(** ** Views and orders *)

Section stable.
Context {A : Type} (comparefn : A → A → number).
Context (P : A → Prop) `{!∀ x, Decision (P x)}.
Hypothesis same_class : ∀ x y, P x → P y → sort_order comparefn x y ≤ 0.

Lemma sort_insert_filter x l :
  filter P (sort_insert comparefn x l) = filter P (x :: l).
Proof.
  induction l as [|y l IH]; [done|]. simpl.
  destruct (Z.leb_spec (sort_order comparefn x y) 0) as [Hle|Hgt]; [done|].
  rewrite (filter_cons _ y), IH, !filter_cons.
  destruct (decide (P x)) as [Hx|Hx], (decide (P y)) as [Hy|Hy]; try done.
  specialize (same_class x y Hx Hy). lia.
Qed.

Lemma sort_filter l : filter P (sort comparefn l) = filter P l.
Proof.
  induction l as [|x l IH]; [done|]. unfold sort in *. simpl.
  by rewrite sort_insert_filter, !filter_cons, IH.
Qed.

End stable.

Section views.
Context `{!JSRuntime}.

Lemma view_selection m a :
  view m a =
    if bool_decide (currentSort m ≠ "manual")
    then sort (compareTasks (currentSort m)) (selection m a)
    else selection m a.
Proof.
  by unfold selection, view.
Qed.

Lemma selection_sublist m a : selection m a `sublist_of` a.
Proof.
  unfold selection, view. simpl.
  destruct (negb _); [etrans; [apply sublist_filter|]|];
    case_bool_decide; done || apply sublist_filter.
Qed.

Lemma selection_all m a :
  currentFilter m = "all" → currentSearch m = "" → selection m a = a.
Proof.
  intros Hf Hs. unfold selection, view. simpl. by rewrite Hf, Hs.
Qed.

(** X16.  The view never shows a task that is not in the collection, nor a
    task more often than the collection holds it.  Without status filter
    and search text it shows every task, as often as the collection holds
    it, and with the sort key ['manual'] it shows the selected tasks in the
    order of the collection. *)
Theorem getFilteredTasks_selects w :
  returns getFilteredTasks w (λ l w',
    array w' l ⊆+ collection w ∧
    (currentFilter (this w) = "all" → currentSearch (this w) = "" →
     array w' l ≡ₚ collection w) ∧
    (currentSort (this w) = "manual" → array w' l `sublist_of` collection w)).
Proof.
  eapply returns_mono; [apply getFilteredTasks_spec|].
  intros l w' (_&_&->). fold (collection w). rewrite view_selection.
  assert (∀ b, (if b : bool
                then sort (compareTasks (currentSort (this w)))
                       (selection (this w) (collection w))
                else selection (this w) (collection w))
               ≡ₚ selection (this w) (collection w)) as Hperm.
  { intros []; [apply sort_Permutation|done]. }
  split; [|split].
  - rewrite Hperm. apply sublist_submseteq, selection_sublist.
  - intros Hf Hs. by rewrite Hperm, selection_all.
  - intros ->. rewrite bool_decide_eq_false_2 by (by intros []).
    apply selection_sublist.
Qed.

Lemma reorderTasks_collection a b w i j ti tj :
  list_find (λ task, id task = a) (collection w) = Some (i, ti) →
  list_find (λ task, id task = b) (collection w) = Some (j, tj) →
  returns (reorderTasks a b) w (λ _ w',
    this w' = set_currentSort "manual" (this w) ∧ allocated w' ∧
    collection w' = swapped (collection w) i j ti tj).
Proof.
  intros Hi Hj. eapply returns_mono; [by eapply reorderTasks_found|].
  intros [] w' He. simpl in He.
  destruct (reordered_saved_array i j ti tj w) as (Ht&Hd&Ha). simpl in *.
  pose proof (extends_array _ _ _ He Hd) as Ha'.
  pose proof (extends_dom _ _ He _ Hd) as Hd'.
  destruct He as (Ht'&_). unfold allocated, collection.
  rewrite Ht', Ht in *. by rewrite Ha', Ha.
Qed.

(** X17.  After a reorder, the view of a manager without status filter
    and search text shows the tasks in the new order of the collection: the
    two tasks have changed places and no sort is applied. *)
Theorem reorderTasks_then_view a b w i j ti tj :
  list_find (λ task, id task = a) (collection w) = Some (i, ti) →
  list_find (λ task, id task = b) (collection w) = Some (j, tj) →
  currentFilter (this w) = "all" → currentSearch (this w) = "" →
  returns (reorderTasks a b;;; getFilteredTasks)%js w (λ l w',
    array w' l = swapped (collection w) i j ti tj ∧
    collection w' = swapped (collection w) i j ti tj).
Proof.
  intros Hi Hj Hf Hs. apply returns_bind.
  eapply returns_mono; [by eapply reorderTasks_collection|].
  intros [] w1 (Ht&Ha&Hc). eapply returns_mono; [apply getFilteredTasks_spec|].
  intros l w' (_&He&->). fold (collection w1).
  rewrite view_selection, Ht. simpl.
  rewrite selection_all, Hc by done. split; [done|].
  unfold collection. destruct He as (->&_&Hh).
  unfold array. rewrite Hh by done. apply Hc.
Qed.

(** X18.  [reorderTasks] neither loses nor duplicates a task, whatever
    the two ids are: the collection afterwards is a permutation of the
    collection before. *)
Theorem reorderTasks_Permutation a b w :
  returns (reorderTasks a b) w (λ _ w', collection w' ≡ₚ collection w).
Proof.
  destruct (list_find (λ task, id task = a) (collection w)) as [[i ti]|] eqn:Hi;
    [destruct (list_find (λ task, id task = b) (collection w)) as [[j tj]|] eqn:Hj|].
  - eapply returns_mono; [by eapply reorderTasks_collection|].
    intros [] w' (_&_&->).
    apply list_find_Some in Hi as (Hi&_), Hj as (Hj&_).
    by apply Permutation_insert_swap.
  - exists tt, w. split; [|done]. apply reorderTasks_absent. right.
    by apply (list_find_None (λ task, id task = b)).
  - exists tt, w. split; [|done]. apply reorderTasks_absent. left.
    by apply (list_find_None (λ task, id task = a)).
Qed.

Lemma sortBy_view key w :
  allocated w →
  returns (modify (λ w, set_this (set_currentSort key (this w)) w);;;
           updateUI;;; getFilteredTasks)%js w (λ l w',
    array w' l = view (set_currentSort key (this w)) (collection w)).
Proof.
  intros Ha. apply returns_bind, returns_modify, returns_bind.
  eapply returns_mono; [apply updateUI_spec|].
  intros [] w1 He. eapply returns_mono; [apply getFilteredTasks_spec|].
  intros l w' (_&_&->). destruct He as (->&_&Hh). simpl.
  unfold collection, array. by rewrite Hh.
Qed.

Lemma priority_rank_valid t :
  priority t ∈ validPriorities → priority_rank (priority t) = Num (rank t).
Proof.
  unfold validPriorities, priority_rank, rank.
  rewrite !elem_of_cons, elem_of_nil. by intros [->|[->|[->|[]]]].
Qed.

(** X19.  [sortByPriority], called without argument or with ['desc'],
    returns the selected tasks from the highest priority to the lowest, and
    with ['asc'] from the lowest to the highest, when the priority of every
    task is one of ['basse'], ['moyenne'] and ['haute']. *)
Theorem sortByPriority_sorted w :
  allocated w →
  Forall (λ t, priority t ∈ validPriorities) (collection w) →
  (∀ order, order = None ∨ order = Some "desc" →
     returns (sortByPriority order) w (λ l w',
       array w' l ≡ₚ selection (this w) (collection w) ∧
       StronglySorted (λ a b, rank b ≤ rank a) (array w' l))) ∧
  returns (sortByPriority (Some "asc")) w (λ l w',
    array w' l ≡ₚ selection (this w) (collection w) ∧
    StronglySorted (λ a b, rank a ≤ rank b) (array w' l)).
Proof.
  intros Ha Hvalid.
  assert (Forall (λ t, priority t ∈ validPriorities)
            (selection (this w) (collection w))) as Hsel.
  { apply Forall_forall. intros t Ht. rewrite Forall_forall in Hvalid.
    apply Hvalid. by eapply sublist_subseteq; [apply selection_sublist|]. }
  split.
  - intros order Horder.
    assert (default "desc" order = "desc") as Hd by (by destruct Horder as [->| ->]).
    unfold sortByPriority. rewrite Hd.
    eapply returns_mono; [by apply sortBy_view|].
    intros l w' ->. rewrite view_selection. simpl.
    split; [apply sort_Permutation|].
    apply (sort_Sorted _ (λ t, priority t ∈ validPriorities)); [| | |done].
    + intros x y Hx Hy. unfold sort_order. simpl.
      rewrite !priority_rank_valid by done. simpl. lia.
    + intros x y _ _. lia.
    + intros x y z _ _ _. lia.
  - unfold sortByPriority.
    eapply returns_mono; [by apply sortBy_view|].
    intros l w' ->. rewrite view_selection. simpl.
    split; [apply sort_Permutation|].
    apply (sort_Sorted _ (λ t, priority t ∈ validPriorities)); [| | |done].
    + intros x y Hx Hy. unfold sort_order. simpl.
      rewrite !priority_rank_valid by done. simpl. lia.
    + intros x y _ _. lia.
    + intros x y z _ _ _. lia.
Qed.

(** X20.  The sorts by date and by priority are stable: when the
    selected tasks have valid dates (for a date key) or priorities that have
    a rank (for a priority key), so that the comparator is a number on every
    pair, the tasks that have the same date, or the same priority, are in
    the view in the order they have in the collection. *)
Theorem getFilteredTasks_stable w :
  currentSort (this w) ∈ (date_keys ++ priority_keys)%list →
  Forall (λ t, sort_key (currentSort (this w)) t ≠ NaN)
    (selection (this w) (collection w)) →
  returns getFilteredTasks w (λ l w',
    ∀ v, filter (λ t, sort_key (currentSort (this w)) t = v) (array w' l) =
         filter (λ t, sort_key (currentSort (this w)) t = v)
           (selection (this w) (collection w))).
Proof.
  intros Hk _. eapply returns_mono; [apply getFilteredTasks_spec|].
  intros l w' (_&_&->) v. fold (collection w). rewrite view_selection.
  unfold date_keys, priority_keys in Hk. simpl in Hk.
  rewrite !elem_of_cons, elem_of_nil in Hk.
  destruct Hk as [Hk|[Hk|[Hk|[Hk|[]]]]]; rewrite Hk;
    (rewrite bool_decide_eq_true_2 by done);
    apply sort_filter; unfold sort_key, sort_order; simpl;
    intros x y -> <-.
  - by destruct (getTime (createdAt y)); simpl; [lia|].
  - by destruct (getTime (createdAt y)); simpl; [lia|].
  - by destruct (priority_rank (priority y)); simpl; [lia|].
  - by destruct (priority_rank (priority y)); simpl; [lia|].
Qed.

End views.
(** ** The quick edits *)

Section quick_edits.
Context `{!JSRuntime}.

Lemma next_status_index st :
  ["à faire"; "en cours"; "terminée"; "bloquée"]
    !! Z.to_nat ((indexOf ["à faire"; "en cours"; "terminée"; "bloquée"] st + 1) `mod` 4)
  = Some (next_status st).
Proof.
  unfold indexOf, findIndex, next_status.
  destruct (decide (st = "à faire")) as [->|H1]; [done|].
  destruct (decide (st = "en cours")) as [->|H2]; [done|].
  destruct (decide (st = "terminée")) as [->|H3]; [done|].
  destruct (decide (st = "bloquée")) as [->|H4]; [done|].
  simpl. by rewrite !decide_False by congruence.
Qed.

Lemma next_priority_index p :
  ["basse"; "moyenne"; "haute"]
    !! Z.to_nat ((indexOf ["basse"; "moyenne"; "haute"] p + 1) `mod` 3)
  = Some (next_priority p).
Proof.
  unfold indexOf, findIndex, next_priority.
  destruct (decide (p = "basse")) as [->|H1]; [done|].
  destruct (decide (p = "moyenne")) as [->|H2]; [done|].
  destruct (decide (p = "haute")) as [->|H3]; [done|].
  simpl. by rewrite !decide_False by congruence.
Qed.

Lemma next_status_valid st : next_status st ∈ validStatuses.
Proof. unfold next_status, validStatuses. repeat case_decide; set_solver. Qed.

Lemma next_status_cycle st :
  st ∈ validStatuses → next_status (next_status (next_status (next_status st))) = st.
Proof.
  unfold validStatuses. rewrite !elem_of_cons, elem_of_nil.
  by intros [->|[->|[->|[->|[]]]]].
Qed.

Lemma next_priority_cycle p :
  p ∈ validPriorities → next_priority (next_priority (next_priority p)) = p.
Proof.
  unfold validPriorities. rewrite !elem_of_cons, elem_of_nil.
  by intros [->|[->|[->|[]]]].
Qed.

Lemma list_find_insert_same {A} (P : A → Prop) `{!∀ x, Decision (P x)} l i x y :
  list_find P l = Some (i, x) → P y → list_find P (<[i:=y]> l) = Some (i, y).
Proof.
  intros (Hi&_&Hmin)%list_find_Some Hy. apply list_find_insert_Some.
  right; left. repeat split; [by eapply lookup_lt_Some|done|done].
Qed.

Lemma update_status_only st task :
  st ∈ validStatuses →
  update (mkPartial None None (Some st) None) task = (Ok tt, with_status st task).
Proof.
  intros Hst. rewrite update_unfold. unfold title_rejected, status_rejected. simpl.
  by rewrite bool_decide_eq_true_2.
Qed.

Lemma update_priority_only p task :
  update (mkPartial None None None (Some p)) task = (Ok tt, set_priority p task).
Proof. by rewrite update_unfold. Qed.

Lemma quickEditStatus_found id' w i task :
  list_find (λ t, id t = id') (collection w) = Some (i, task) →
  returns (quickEditStatus id') w (λ _ w',
    committed (<[i := with_status (next_status (status task)) task]> (collection w))
      w w').
Proof.
  intros Hf. unfold quickEditStatus. apply returns_bind, returns_findById.
  rewrite Hf. cbn [length Z.of_nat Pos.of_succ_nat Pos.succ].
  rewrite next_status_index.
  assert (falsy (next_status (status task)) = false) as ->.
  { unfold next_status, falsy. by repeat case_decide. }
  simpl. apply returns_bind.
  eapply returns_mono;
    [by eapply TaskManager_update_Ok, update_status_only, next_status_valid|].
  intros r w' [_ Hc]. by apply returns_ret.
Qed.

Lemma quickEditPriority_found id' w i task :
  list_find (λ t, id t = id') (collection w) = Some (i, task) →
  returns (quickEditPriority id') w (λ _ w',
    committed (<[i := set_priority (next_priority (priority task)) task]> (collection w))
      w w').
Proof.
  intros Hf. unfold quickEditPriority. apply returns_bind, returns_findById.
  rewrite Hf. cbn [length Z.of_nat Pos.of_succ_nat Pos.succ].
  rewrite next_priority_index.
  assert (falsy (next_priority (priority task)) = false) as ->.
  { unfold next_priority, falsy. by repeat case_decide. }
  simpl. apply returns_bind.
  eapply returns_mono; [by eapply TaskManager_update_Ok, update_priority_only|].
  intros r w' [_ Hc]. by apply returns_ret.
Qed.

(** One quick edit, in the form that chains: the task is still the first
    one that has the id. *)
Lemma quickEditStatus_chain id' w i task ts :
  collection w = <[i:=task]> ts ∧
  list_find (λ t, id t = id') (collection w) = Some (i, task) →
  returns (quickEditStatus id') w (λ _ w',
    this w' = this w ∧
    collection w' = <[i := with_status (next_status (status task)) task]> ts ∧
    list_find (λ t, id t = id') (collection w')
      = Some (i, with_status (next_status (status task)) task)).
Proof.
  intros [Hc Hf]. eapply returns_mono; [by apply quickEditStatus_found|].
  intros [] w' (Ht&_&Hc'&_). split; [done|]. rewrite Hc'. split.
  - by rewrite Hc, list_insert_insert_eq.
  - eapply list_find_insert_same; [done|]. simpl.
    by apply list_find_Some in Hf as (_&?&_).
Qed.

Lemma quickEditPriority_chain id' w i task ts :
  collection w = <[i:=task]> ts ∧
  list_find (λ t, id t = id') (collection w) = Some (i, task) →
  returns (quickEditPriority id') w (λ _ w',
    this w' = this w ∧
    collection w' = <[i := set_priority (next_priority (priority task)) task]> ts ∧
    list_find (λ t, id t = id') (collection w')
      = Some (i, set_priority (next_priority (priority task)) task)).
Proof.
  intros [Hc Hf]. eapply returns_mono; [by apply quickEditPriority_found|].
  intros [] w' (Ht&_&Hc'&_). split; [done|]. rewrite Hc'. split.
  - by rewrite Hc, list_insert_insert_eq.
  - eapply list_find_insert_same; [done|]. simpl.
    by apply list_find_Some in Hf as (_&?&_).
Qed.

(** X21.  [quickEditStatus] moves the first task that has the id to the
    next status of the cycle à faire, en cours, terminée, bloquée, à faire
    (to à faire from any other status), sets the color of that status and
    saves; no other field and no other task changes.  Four quick edits give
    the task its status again, with the color of that status.  With an id
    that no task has, nothing changes. *)
Theorem quickEditStatus_cycle id' w :
  match list_find (λ t, id t = id') (collection w) with
  | Some (i, task) =>
      returns (quickEditStatus id') w (λ _ w',
        committed (<[i := with_status (next_status (status task)) task]> (collection w))
          w w') ∧
      (status task ∈ validStatuses →
       returns (quickEditStatus id';;; quickEditStatus id';;;
                quickEditStatus id';;; quickEditStatus id')%js w (λ _ w',
         this w' = this w ∧
         collection w' =
           <[i := set_color (getColorByStatus (status task)) task]> (collection w)))
  | None => quickEditStatus id' w = (Ok tt, w)
  end.
Proof.
  destruct (list_find _ _) as [[i task]|] eqn:Hf.
  - split; [by apply quickEditStatus_found|]. intros Hvalid.
    assert (collection w = <[i:=task]> (collection w)) as Hc.
    { symmetry. apply list_insert_id. by apply list_find_Some in Hf as (?&_). }
    apply returns_bind.
    eapply returns_mono; [by eapply quickEditStatus_chain|].
    intros [] w1 (Ht1&Hc1&Hf1). apply returns_bind.
    eapply returns_mono; [by eapply quickEditStatus_chain|].
    intros [] w2 (Ht2&Hc2&Hf2). apply returns_bind.
    eapply returns_mono; [by eapply quickEditStatus_chain|].
    intros [] w3 (Ht3&Hc3&Hf3).
    eapply returns_mono; [by eapply quickEditStatus_chain|].
    intros [] w4 (Ht4&Hc4&_). split; [congruence|]. rewrite Hc4. simpl.
    rewrite next_status_cycle by done. by destruct task.
  - unfold quickEditStatus, bind, findById, get, ret. simpl.
    unfold collection in Hf. by rewrite Hf.
Qed.

(** X22.  [quickEditPriority] moves the first task that has the id to
    the next priority of the cycle basse, moyenne, haute, basse (to basse
    from any other priority) and saves; it never fails, and no other field
    and no other task changes.  Three quick edits of a task whose priority
    is one of the three leave the collection as it was. *)
Theorem quickEditPriority_cycle id' w :
  match list_find (λ t, id t = id') (collection w) with
  | Some (i, task) =>
      returns (quickEditPriority id') w (λ _ w',
        committed
          (<[i := set_priority (next_priority (priority task)) task]> (collection w))
          w w') ∧
      (priority task ∈ validPriorities →
       returns (quickEditPriority id';;; quickEditPriority id';;;
                quickEditPriority id')%js w (λ _ w',
         this w' = this w ∧ collection w' = collection w))
  | None => quickEditPriority id' w = (Ok tt, w)
  end.
Proof.
  destruct (list_find _ _) as [[i task]|] eqn:Hf.
  - split; [by apply quickEditPriority_found|]. intros Hvalid.
    assert (collection w = <[i:=task]> (collection w)) as Hc.
    { symmetry. apply list_insert_id. by apply list_find_Some in Hf as (?&_). }
    apply returns_bind.
    eapply returns_mono; [by eapply quickEditPriority_chain|].
    intros [] w1 (Ht1&Hc1&Hf1). apply returns_bind.
    eapply returns_mono; [by eapply quickEditPriority_chain|].
    intros [] w2 (Ht2&Hc2&Hf2).
    eapply returns_mono; [by eapply quickEditPriority_chain|].
    intros [] w3 (Ht3&Hc3&_). split; [congruence|]. rewrite Hc3. simpl.
    rewrite next_priority_cycle by done. rewrite Hc at 2. by destruct task.
  - unfold quickEditPriority, bind, findById, get, ret. simpl.
    unfold collection in Hf. by rewrite Hf.
Qed.

End quick_edits.
(** ** Sort keys, membership and invariants *)

Ltac bit b := destruct b; try reflexivity.
Ltac next_char k :=
  let b0 := fresh in let b1 := fresh in let b2 := fresh in let b3 := fresh in
  let b4 := fresh in let b5 := fresh in let b6 := fresh in let b7 := fresh in
  destruct k as [|[b0 b1 b2 b3 b4 b5 b6 b7] k];
    [try done
    |bit b0; bit b1; bit b2; bit b3; bit b4; bit b5; bit b6; bit b7].

Section keys.
Context `{!JSRuntime}.

(** The [default] case of the comparator. *)
Lemma compareTasks_default k a b :
  k ∉ sort_keys → compareTasks k a b = Num 0.
Proof.
  intros Hk. unfold sort_keys in Hk. rewrite !not_elem_of_cons in Hk.
  destruct Hk as (H1&H2&H3&H4&H5&H6&_).
  unfold compareTasks. do 14 (try next_char k).
Qed.

Lemma sort_zero {A} (comparefn : A → A → number) l :
  (∀ a b, comparefn a b = Num 0) → sort comparefn l = l.
Proof.
  intros Hzero. induction l as [|x l IH]; [done|].
  unfold sort in *. simpl. rewrite IH.
  destruct l as [|y l]; [done|]. simpl. unfold sort_order. by rewrite Hzero.
Qed.

(** X23.  Only the six keys of the comparator sort the view: with any
    other sort key, as the sort selector may set, the view shows the
    selected tasks in the order of the collection, as with ['manual']. *)
Theorem getFilteredTasks_other_key sortValue w :
  sortValue ∉ sort_keys →
  (currentSort (this w) = sortValue →
   returns getFilteredTasks w (λ l w',
     array w' l = selection (this w) (collection w))) ∧
  (allocated w →
   returns (onSortChange sortValue;;; getFilteredTasks)%js w (λ l w',
     currentSort (this w') = sortValue ∧
     array w' l = selection (this w) (collection w))).
Proof.
  intros Hk.
  assert (∀ m a, currentSort m = sortValue → view m a = selection m a) as Hview.
  { intros m a Hm. rewrite view_selection, Hm. case_bool_decide; [|done].
    apply sort_zero. intros x y. by apply compareTasks_default. }
  split.
  - intros Hw. eapply returns_mono; [apply getFilteredTasks_spec|].
    intros l w' (_&_&->). by apply Hview.
  - intros Ha. unfold onSortChange.
    apply returns_bind, returns_bind, returns_modify.
    eapply returns_mono; [apply updateUI_spec|].
    intros [] w1 He. eapply returns_mono; [apply getFilteredTasks_spec|].
    intros l w' (_&(Ht'&_)&->). destruct He as (Ht&_&Hh).
    split; [by rewrite Ht', Ht|]. rewrite Hview by (by rewrite Ht).
    rewrite Ht. unfold collection, array. simpl. by rewrite Hh.
Qed.

(** X24.  A task is in the view exactly when it is in the collection, has
    the status of the filter unless the filter is ['all'], and has the
    search text in its lowered title or description unless the search text
    is empty, whatever the sort key is. *)
Theorem getFilteredTasks_membership w :
  returns getFilteredTasks w (λ l w',
    ∀ t, t ∈ array w' l ↔
      t ∈ collection w ∧
      (currentFilter (this w) = "all" ∨ status t = currentFilter (this w)) ∧
      (currentSearch (this w) = "" ∨
       includes (toLowerCase (title t)) (currentSearch (this w)) ||
       includes (toLowerCase (description t)) (currentSearch (this w)))).
Proof.
  eapply returns_mono; [apply getFilteredTasks_spec|].
  intros l w' (_&_&->) t. fold (collection w). rewrite view_selection.
  assert (∀ b, (if b : bool
                then sort (compareTasks (currentSort (this w)))
                       (selection (this w) (collection w))
                else selection (this w) (collection w))
               ≡ₚ selection (this w) (collection w)) as ->.
  { intros []; [apply sort_Permutation|done]. }
  unfold selection, view, falsy. simpl.
  destruct (bool_decide_reflect (currentSearch (this w) = "")) as [Hs|Hs]; simpl;
    destruct (bool_decide_reflect (currentFilter (this w) ≠ "all")) as [Hf|Hf];
    rewrite ?list_elem_of_filter.
  - split; [intros [??]; auto|]. intros (?&[?|?]&_); [done|auto].
  - apply dec_stable in Hf. split; [auto|]. by intros (?&_).
  - split; [intros (?&?&?); auto|]. intros (?&[?|?]&[?|?]); done || auto.
  - apply dec_stable in Hf. split; [intros (?&?); auto|].
    intros (?&_&[?|?]); done || auto.
Qed.

Lemma update_status_valid pd t r t' :
  update pd t = (r, t') → status t ∈ validStatuses → status t' ∈ validStatuses.
Proof.
  rewrite update_unfold.
  destruct pd as [[ttl|] [d|] [st|] [p|]];
    unfold title_rejected, status_rejected, after_priority, after_status,
      after_description, after_title; simpl;
    repeat (match goal with
            | |- context [blank ?x] => destruct (blank x)
            | |- context [bool_decide ?P] => destruct (bool_decide_reflect P)
            end; simpl);
    by intros [= <- <-].
Qed.

(** X25.  The commands of the manager keep the statuses in the closed
    set: when the status of every task is one of the four, it still is
    after [add] of such a task, [TaskManager.update] (whether it returns
    [true] or [false]), [remove], [reorderTasks] and the quick edits. *)
Theorem statuses_stay_valid w :
  Forall (λ t, status t ∈ validStatuses) (collection w) →
  (∀ task, status task ∈ validStatuses →
     returns (add task) w (λ _ w',
       Forall (λ t, status t ∈ validStatuses) (collection w'))) ∧
  (∀ id' pd, returns (TaskManager_update id' pd) w (λ _ w',
       Forall (λ t, status t ∈ validStatuses) (collection w'))) ∧
  (∀ id', returns (remove id') w (λ _ w',
       Forall (λ t, status t ∈ validStatuses) (collection w'))) ∧
  (∀ a b, returns (reorderTasks a b) w (λ _ w',
       Forall (λ t, status t ∈ validStatuses) (collection w'))) ∧
  (∀ id', returns (quickEditStatus id') w (λ _ w',
       Forall (λ t, status t ∈ validStatuses) (collection w'))) ∧
  (∀ id', returns (quickEditPriority id') w (λ _ w',
       Forall (λ t, status t ∈ validStatuses) (collection w'))).
Proof.
  intros Hvalid. split_and!.
  - intros task Htask. eapply returns_mono; [apply add_spec|].
    intros r w' [_ (_&_&->&_)]. apply Forall_app. by split; [|constructor].
  - intros id' pd.
    destruct (list_find (λ task, id task = id') (collection w))
      as [[i task]|] eqn:Hf.
    + assert (status task ∈ validStatuses) as Htask.
      { apply list_find_Some in Hf as (Hi&_). exact (Forall_lookup_1 (λ t, status t ∈ validStatuses) _ _ _ Hvalid Hi). }
      destruct (update pd task) as [[[]|x] task'] eqn:Hu.
      * eapply returns_mono; [by eapply TaskManager_update_Ok|].
        intros r w' [_ (_&_&->&_)]. apply Forall_insert; [done|].
        by eapply update_status_valid.
      * eexists false, _. split; [by eapply TaskManager_update_Throw|].
        rewrite collection_with_tasks. apply Forall_insert; [done|].
        by eapply update_status_valid.
    + exists false, w. split; [by apply TaskManager_update_absent|done].
  - intros id'.
    destruct (list_find (λ task, id task = id') (collection w))
      as [[i task]|] eqn:Hf.
    + eapply returns_mono; [by eapply remove_found|].
      intros r w' [_ (_&_&->&_)]. by apply Forall_delete.
    + exists false, w. split; [by apply remove_absent|done].
  - intros a b.
    destruct (list_find (λ task, id task = a) (collection w)) as [[i ti]|] eqn:Hi;
      [destruct (list_find (λ task, id task = b) (collection w))
         as [[j tj]|] eqn:Hj|].
    + eapply returns_mono; [by eapply reorderTasks_collection|].
      intros [] w' (_&_&->).
      apply list_find_Some in Hi as (Hi&_), Hj as (Hj&_).
      unfold swapped. by rewrite Permutation_insert_swap.
    + exists tt, w. split; [|done]. apply reorderTasks_absent. right.
      by apply (list_find_None (λ task, id task = b)).
    + exists tt, w. split; [|done]. apply reorderTasks_absent. left.
      by apply (list_find_None (λ task, id task = a)).
  - intros id'.
    destruct (list_find (λ task, id task = id') (collection w))
      as [[i task]|] eqn:Hf.
    + eapply returns_mono; [by eapply quickEditStatus_found|].
      intros [] w' (_&_&->&_). apply Forall_insert; [done|].
      apply next_status_valid.
    + exists tt, w. split; [|done].
      unfold quickEditStatus, bind, findById, get, ret. simpl.
      unfold collection in Hf. by rewrite Hf.
  - intros id'.
    destruct (list_find (λ task, id task = id') (collection w))
      as [[i task]|] eqn:Hf.
    + eapply returns_mono; [by eapply quickEditPriority_found|].
      intros [] w' (_&_&->&_). apply Forall_insert; [done|]. simpl.
      apply list_find_Some in Hf as (Hi&_). exact (Forall_lookup_1 (λ t, status t ∈ validStatuses) _ _ _ Hvalid Hi).
    + exists tt, w. split; [|done].
      unfold quickEditPriority, bind, findById, get, ret. simpl.
      unfold collection in Hf. by rewrite Hf.
Qed.

(** X26.  After [TaskManager.update] has returned [true], [findById]
    with the same id returns the task as [Task.update] left it, at the
    place it had: the update is read back, and it is the first task with
    the id that was updated. *)
Theorem TaskManager_update_then_findById id' pd w i task task' :
  list_find (λ t, id t = id') (collection w) = Some (i, task) →
  update pd task = (Ok tt, task') →
  returns (TaskManager_update id' pd;;; findById id')%js w (λ found w',
    found = Some (i, task') ∧
    committed (<[i:=task']> (collection w)) w w').
Proof.
  intros Hf Hu. apply returns_bind.
  eapply returns_mono; [by eapply TaskManager_update_Ok|].
  intros r w' [_ Hc]. apply returns_findById. split; [|done].
  destruct Hc as (_&_&->&_). eapply list_find_insert_same; [done|]. simpl.
  apply update_keeps in Hu as [-> _]. by apply list_find_Some in Hf as (_&?&_).
Qed.

End keys.

Section dates.
Context `{!JSRuntime}.

(** X27.  [sortByDate], called without argument or with ['desc'], returns
    the selected tasks from the most recent to the oldest, and with ['asc']
    from the oldest to the most recent, when the date of every task is
    valid. *)
Theorem sortByDate_sorted w :
  allocated w →
  Forall (λ t, createdAt t ≠ Invalid) (collection w) →
  (∀ order, order = None ∨ order = Some "desc" →
     returns (sortByDate order) w (λ l w',
       array w' l ≡ₚ selection (this w) (collection w) ∧
       StronglySorted not_older (array w' l))) ∧
  returns (sortByDate (Some "asc")) w (λ l w',
    array w' l ≡ₚ selection (this w) (collection w) ∧
    StronglySorted (λ a b, not_older b a) (array w' l)).
Proof.
  intros Ha Hvalid.
  assert (Forall (λ t, createdAt t ≠ Invalid)
            (selection (this w) (collection w))) as Hsel.
  { apply Forall_forall. intros t Ht. rewrite Forall_forall in Hvalid.
    apply Hvalid. by eapply sublist_subseteq; [apply selection_sublist|]. }
  split.
  - intros order Horder.
    assert (default "desc" order = "desc") as Hd by (by destruct Horder as [->| ->]).
    unfold sortByDate. rewrite Hd.
    eapply returns_mono; [by apply sortBy_view|].
    intros l w' ->. rewrite view_selection. simpl.
    split; [apply sort_Permutation|].
    apply (sort_Sorted _ (λ t, createdAt t ≠ Invalid)); [| | |done];
      unfold not_older, sort_order; simpl.
    + intros x y Hx Hy. destruct (createdAt x), (createdAt y); simpl; try done. lia.
    + intros x y Hx Hy. destruct (createdAt x), (createdAt y); try done. lia.
    + intros x y z Hx Hy Hz.
      destruct (createdAt x), (createdAt y), (createdAt z); try done. lia.
  - unfold sortByDate.
    eapply returns_mono; [by apply sortBy_view|].
    intros l w' ->. rewrite view_selection. simpl.
    split; [apply sort_Permutation|].
    apply (sort_Sorted _ (λ t, createdAt t ≠ Invalid)); [| | |done];
      unfold not_older, sort_order; simpl.
    + intros x y Hx Hy. destruct (createdAt x), (createdAt y); simpl; try done. lia.
    + intros x y Hx Hy. destruct (createdAt x), (createdAt y); try done. lia.
    + intros x y z Hx Hy Hz.
      destruct (createdAt x), (createdAt y), (createdAt z); try done. lia.
Qed.

End dates.

Section titles.
Context `{!JSRuntime}.

(** X28.  [sortByTitle], called without argument or with ['asc'], returns
    the selected tasks with their titles in the ascending order of
    [localeCompare], and with ['desc'] in the descending order, on a runtime
    whose [localeCompare] is a total preorder. *)
Theorem sortByTitle_sorted w :
  allocated w →
  (∀ a b, localeCompare a b ≤ 0 ∨ localeCompare b a ≤ 0) →
  (∀ a b c, localeCompare a b ≤ 0 → localeCompare b c ≤ 0 → localeCompare a c ≤ 0) →
  (∀ order, order = None ∨ order = Some "asc" →
     returns (sortByTitle order) w (λ l w',
       array w' l ≡ₚ selection (this w) (collection w) ∧
       StronglySorted (λ a b, localeCompare (title a) (title b) ≤ 0) (array w' l))) ∧
  returns (sortByTitle (Some "desc")) w (λ l w',
    array w' l ≡ₚ selection (this w) (collection w) ∧
    StronglySorted (λ a b, localeCompare (title b) (title a) ≤ 0) (array w' l)).
Proof.
  intros Ha Htotal Htrans. split.
  - intros order Horder.
    assert (default "asc" order = "asc") as Hd by (by destruct Horder as [->| ->]).
    unfold sortByTitle. rewrite Hd.
    eapply returns_mono; [by apply sortBy_view|].
    intros l w' ->. rewrite view_selection. simpl.
    split; [apply sort_Permutation|].
    apply (sort_Sorted _ (λ _, True)); [done|by auto|by eauto|].
    by apply Forall_forall.
  - unfold sortByTitle.
    eapply returns_mono; [by apply sortBy_view|].
    intros l w' ->. rewrite view_selection. simpl.
    split; [apply sort_Permutation|].
    apply (sort_Sorted _ (λ _, True)); [done|by auto|by eauto|].
    by apply Forall_forall.
Qed.

End titles.

(** ** The reference runtime *)

Module ReferenceFacts.
Import Reference.

(** *** [trim] is idempotent *)

Lemma trimStart_trimEnd s :
  trimStart (trimEnd (trimStart s)) = trimEnd (trimStart s).
Proof.
  induction s as [|c s IH]; [done|]. cbn [trimStart].
  destruct (is_space c) eqn:Hc; [done|]. cbn [trimEnd].
  destruct (trimEnd s); rewrite ?Hc; cbn [trimStart]; by rewrite Hc.
Qed.

Lemma trimEnd_idem s : trimEnd (trimEnd s) = trimEnd s.
Proof.
  induction s as [|c s IH]; [done|]. cbn [trimEnd].
  destruct (trimEnd s) as [|c' r] eqn:Hr.
  - destruct (is_space c) eqn:Hc; [done|]. cbn [trimEnd]. by rewrite Hc.
  - change (trimEnd (String c (String c' r))) with
      (match trimEnd (String c' r) with
       | EmptyString => if is_space c then EmptyString else String c EmptyString
       | r' => String c r'
       end).
    by rewrite IH.
Qed.

Lemma trim_idem s : trim (trim s) = trim s.
Proof. unfold trim. by rewrite trimStart_trimEnd, trimEnd_idem. Qed.

(** *** [new Date] reads back what [toISOString] writes *)

Lemma digit_cases n :
  n mod 10 = 0 ∨ n mod 10 = 1 ∨ n mod 10 = 2 ∨ n mod 10 = 3 ∨ n mod 10 = 4 ∨
  n mod 10 = 5 ∨ n mod 10 = 6 ∨ n mod 10 = 7 ∨ n mod 10 = 8 ∨ n mod 10 = 9.
Proof. pose proof (Z.mod_pos_bound n 10). lia. Qed.

Lemma digit_value_char n : digit_value (digit_char n) = Some (n mod 10).
Proof.
  unfold digit_char.
  destruct (digit_cases n)
    as [->|[->|[->|[->|[->|[->|[->|[->|[->| ->]]]]]]]]]; reflexivity.
Qed.

Lemma digit_char_not_sign n : digit_char n ≠ "+"%char ∧ digit_char n ≠ "-"%char.
Proof.
  unfold digit_char.
  destruct (digit_cases n)
    as [->|[->|[->|[->|[->|[->|[->|[->|[->| ->]]]]]]]]]; split; discriminate.
Qed.

Lemma civil_iter n :
  let s := Pos.iter civil_step (0, true) n in
  fst s = Z.pos n ∧
  (snd s = true → ∀ doe, 0 ≤ doe < Z.pos n → civil_ok doe = true).
Proof.
  induction n as [|n IH] using Pos.peano_ind; simpl.
  - split; [done|]. intros Hok doe Hdoe. assert (doe = 0) as -> by lia. done.
  - rewrite Pos.iter_succ. destruct IH as [Hfst Hsnd].
    destruct (Pos.iter civil_step (0, true) n) as [k ok]. simpl in *.
    subst k.
    split; [lia|]. intros [Hok Hk]%andb_true_iff doe Hdoe.
    destruct (decide (doe = Z.pos n)) as [->|]; [done|]. apply Hsnd; [done|lia].
Qed.

(** The 146097 days of a cycle, by computation. *)
Lemma civil_ok_all doe : 0 ≤ doe < 146097 → civil_ok doe = true.
Proof.
  apply (proj2 (civil_iter 146097)). vm_compute. reflexivity.
Qed.

Lemma civil_from_days_spec z y m d :
  civil_from_days z = (y, m, d) →
  days_from_civil y m d = z ∧ 1 ≤ m ≤ 12 ∧ 1 ≤ d ≤ 31 ∧
  (z + 719468) / 146097 * 400 ≤ y ≤ (z + 719468) / 146097 * 400 + 400.
Proof.
  unfold civil_from_days, days_from_civil.
  pose proof (Z.mod_pos_bound (z + 719468) 146097 eq_refl) as Hdoe.
  pose proof (civil_ok_all _ Hdoe) as Hok. unfold civil_ok in Hok.
  destruct (civil_of_doe _) as [[yoe m'] d'].
  intros [= <- <- <-].
  repeat (apply andb_true_iff in Hok as [Hok ?]).
  assert (yoe + (z + 719468) / 146097 * 400 + (if m' <=? 2 then 1 else 0)
          - (if m' <=? 2 then 1 else 0)
          = yoe + (z + 719468) / 146097 * 400) as -> by lia.
  rewrite Z.div_add, Z.mod_add by lia.
  rewrite Z.div_small, Z.mod_small by lia.
  assert (doe_of_civil yoe m' d' = (z + 719468) mod 146097) as -> by lia.
  pose proof (Z.div_mod (z + 719468) 146097).
  destruct (m' <=? 2); lia.
Qed.

Lemma read_digits_2 a b :
  read_digits 0 (String (digit_char a) (String (digit_char b) "")) =
  Some (10 * (a mod 10) + b mod 10).
Proof.
  cbn [read_digits]. rewrite !digit_value_char. cbn [mbind option_bind].
  f_equal; lia.
Qed.

Lemma read_digits_3 a b c :
  read_digits 0 (String (digit_char a) (String (digit_char b)
                   (String (digit_char c) ""))) =
  Some (100 * (a mod 10) + 10 * (b mod 10) + c mod 10).
Proof.
  cbn [read_digits]. rewrite !digit_value_char. cbn [mbind option_bind].
  f_equal; lia.
Qed.

Lemma two_digits n : 0 ≤ n < 100 → 10 * ((n / 10) mod 10) + n mod 10 = n.
Proof. intros. Z.div_mod_to_equations. lia. Qed.

Lemma three_digits n :
  0 ≤ n < 1000 →
  100 * ((n / 10 / 10) mod 10) + 10 * ((n / 10) mod 10) + n mod 10 = n.
Proof. intros. Z.div_mod_to_equations. lia. Qed.

Lemma read_time_time_string y m d t :
  0 ≤ t < 86400000 → 1 ≤ m ≤ 12 → 1 ≤ d ≤ 31 →
  civil_from_days (days_from_civil y m d) = (y, m, d) →
  read_time y (time_string m d t) = Some (days_from_civil y m d * 86400000 + t).
Proof.
  intros Ht Hm Hd Hcivil. unfold read_time.
  rewrite bool_decide_eq_true_2 by (repeat split; reflexivity).
  change (field 1 2 (time_string m d t)) with
    (read_digits 0 (String (digit_char (m / 10)) (String (digit_char m) ""))).
  change (field 4 2 (time_string m d t)) with
    (read_digits 0 (String (digit_char (d / 10)) (String (digit_char d) ""))).
  change (field 7 2 (time_string m d t)) with
    (read_digits 0 (String (digit_char (t / 3600000 / 10))
                      (String (digit_char (t / 3600000)) ""))).
  change (field 10 2 (time_string m d t)) with
    (read_digits 0 (String (digit_char (t / 60000 mod 60 / 10))
                      (String (digit_char (t / 60000 mod 60)) ""))).
  change (field 13 2 (time_string m d t)) with
    (read_digits 0 (String (digit_char (t / 1000 mod 60 / 10))
                      (String (digit_char (t / 1000 mod 60)) ""))).
  change (field 16 3 (time_string m d t)) with
    (read_digits 0 (String (digit_char (t mod 1000 / 10 / 10))
                      (String (digit_char (t mod 1000 / 10))
                         (String (digit_char (t mod 1000)) "")))).
  rewrite !read_digits_2, read_digits_3. cbn [mbind option_bind].
  rewrite !two_digits, three_digits by (Z.div_mod_to_equations; lia).
  rewrite bool_decide_eq_true_2 by done.
  assert ((t / 3600000 <=? 23) = true) as ->
    by (apply Z.leb_le; Z.div_mod_to_equations; lia).
  assert ((t / 60000 mod 60 <=? 59) = true) as ->
    by (apply Z.leb_le; Z.div_mod_to_equations; lia).
  assert ((t / 1000 mod 60 <=? 59) = true) as ->
    by (apply Z.leb_le; Z.div_mod_to_equations; lia).
  cbn [andb]. f_equal. Z.div_mod_to_equations. lia.
Qed.

Lemma read_digits_4 a b c d :
  read_digits 0 (String (digit_char a) (String (digit_char b)
                   (String (digit_char c) (String (digit_char d) "")))) =
  Some (1000 * (a mod 10) + 100 * (b mod 10) + 10 * (c mod 10) + d mod 10).
Proof.
  cbn [read_digits]. rewrite !digit_value_char. cbn [mbind option_bind].
  f_equal; lia.
Qed.

Lemma read_digits_6 a b c d e f :
  read_digits 0 (String (digit_char a) (String (digit_char b)
                   (String (digit_char c) (String (digit_char d)
                      (String (digit_char e) (String (digit_char f) "")))))) =
  Some (100000 * (a mod 10) + 10000 * (b mod 10) + 1000 * (c mod 10)
        + 100 * (d mod 10) + 10 * (e mod 10) + f mod 10).
Proof.
  cbn [read_digits]. rewrite !digit_value_char. cbn [mbind option_bind].
  f_equal; lia.
Qed.

Lemma field_4 c1 c2 c3 c4 rest :
  field 0 4 (String c1 (String c2 (String c3 (String c4 rest)))) =
  read_digits 0 (String c1 (String c2 (String c3 (String c4 "")))).
Proof. unfold field. cbn [String.substring]. by destruct rest. Qed.

Lemma field_6 c1 c2 c3 c4 c5 c6 rest :
  field 0 6 (String c1 (String c2 (String c3 (String c4 (String c5
               (String c6 rest)))))) =
  read_digits 0 (String c1 (String c2 (String c3 (String c4 (String c5
                   (String c6 "")))))).
Proof. unfold field. cbn [String.substring]. by destruct rest. Qed.

Lemma parse_iso_year y rest :
  -1000000 < y < 1000000 →
  parse_iso (year_string y +:+ rest) = read_time y rest.
Proof.
  intros Hy. unfold year_string.
  destruct (Z.leb_spec 0 y) as [Hpos|Hneg]; cbn [andb].
  - destruct (Z.leb_spec y 9999) as [Hsmall|Hlarge].
    + change (digits 4 y +:+ rest) with
        (String (digit_char (y / 10 / 10 / 10)) (String (digit_char (y / 10 / 10))
           (String (digit_char (y / 10)) (String (digit_char y) rest)))).
      unfold parse_iso.
      destruct (digit_char_not_sign (y / 10 / 10 / 10)) as [Hplus Hminus].
      rewrite !bool_decide_eq_false_2 by done.
      rewrite field_4, read_digits_4. cbn [mbind option_bind skip].
      f_equal. Z.div_mod_to_equations. lia.
    + assert ((y <? 0) = false) as -> by lia.
      change (String "+" (digits 6 (Z.abs y)) +:+ rest) with
        (String "+"
           (String (digit_char (Z.abs y / 10 / 10 / 10 / 10 / 10))
              (String (digit_char (Z.abs y / 10 / 10 / 10 / 10))
                 (String (digit_char (Z.abs y / 10 / 10 / 10))
                    (String (digit_char (Z.abs y / 10 / 10))
                       (String (digit_char (Z.abs y / 10))
                          (String (digit_char (Z.abs y)) rest))))))).
      unfold parse_iso. rewrite bool_decide_eq_true_2 by done.
      rewrite field_6, read_digits_6. cbn [mbind option_bind].
      change (skip 6 _) with rest.
      f_equal. Z.div_mod_to_equations. lia.
  - assert ((y <? 0) = true) as -> by lia.
    change (String "-" (digits 6 (Z.abs y)) +:+ rest) with
      (String "-"
         (String (digit_char (Z.abs y / 10 / 10 / 10 / 10 / 10))
            (String (digit_char (Z.abs y / 10 / 10 / 10 / 10))
               (String (digit_char (Z.abs y / 10 / 10 / 10))
                  (String (digit_char (Z.abs y / 10 / 10))
                     (String (digit_char (Z.abs y / 10))
                        (String (digit_char (Z.abs y)) rest))))))).
    unfold parse_iso.
    rewrite bool_decide_eq_false_2 by done. rewrite bool_decide_eq_true_2 by done.
    rewrite field_6, read_digits_6. cbn [mbind option_bind].
    change (skip 6 _) with rest.
    set (v := 100000 * _ + _ + _ + _ + _ + _).
    assert (v = - y) as -> by (subst v; Z.div_mod_to_equations; lia).
    assert ((- y =? 0) = false) as -> by lia.
    f_equal. lia.
Qed.

(** Every time value that a [Date] can hold is read back from its ISO
    string. *)
Lemma Date_of_string_iso_of_ms ms :
  -8640000000000000 ≤ ms ≤ 8640000000000000 →
  Date_of_string (iso_of_ms ms) = Valid ms.
Proof.
  intros Hms. unfold Date_of_string, iso_of_ms.
  destruct (civil_from_days (ms / 86400000)) as [[y m] d] eqn:Hcivil.
  destruct (civil_from_days_spec _ _ _ _ Hcivil) as (Hdays&Hm&Hd&Hy).
  rewrite parse_iso_year by (Z.div_mod_to_equations; lia).
  rewrite read_time_time_string;
    [|by apply Z.mod_pos_bound|done..|by rewrite Hdays].
  rewrite Hdays.
  assert (ms / 86400000 * 86400000 + ms mod 86400000 = ms) as ->
    by (Z.div_mod_to_equations; lia).
  by rewrite (proj2 (Z.leb_le _ _)) by lia.
Qed.

End ReferenceFacts.

(** On the reference runtime every task that the constructor, [update] and
    [fromJSON] build is well formed, and is read back from its record when
    its createdAt is a valid date. *)
Lemma Reference_task_object_well_formed t :
  @task_object Reference.runtime t → @well_formed Reference.runtime t.
Proof.
  apply (@task_object_well_formed Reference.runtime), ReferenceFacts.trim_idem.
Qed.

Lemma Reference_fromJSON_toJSON e t ms :
  @task_object Reference.runtime t →
  createdAt t = Valid ms →
  -8640000000000000 ≤ ms ≤ 8640000000000000 →
  @toJSON Reference.runtime t ≫= @fromJSON Reference.runtime e = Ok t.
Proof.
  intros (Hb&Ht&Hd&Hs)%Reference_task_object_well_formed Hc Hms.
  unfold toJSON. rewrite Hc. simpl. apply fromJSON_Ok. split.
  - by apply validateInputs_Ok.
  - simpl in *.
    rewrite Ht, Hd, ReferenceFacts.Date_of_string_iso_of_ms, <-Hc by done.
    by destruct t.
Qed.

(** * The claims on concrete inputs, on the reference runtime *)

Import Examples.

Local Existing Instance Reference.runtime.

(** ** Task *)

(** C1, counterexample: the record has status ['à faire'] and a color that
    is not the color of that status; [fromJSON] returns a task with both. *)
Lemma fromJSON_color_diverges :
  let data := mkTaskData "task_1" "Documentation" "" "à faire" "basse"
                "2023-11-14T22:13:20.321Z" (Some "#000000") in
  ∃ t, fromJSON e0 data = Ok t ∧
       status t = "à faire" ∧ color t = Some "#000000" ∧
       getColorByStatus (status t) = Some "#3498db" ∧
       ¬ color_matches_status t.
Proof.
  eexists. split; [vm_compute; reflexivity|]. by repeat split.
Qed.

Lemma color_follows_status_witness :
  color_matches_status api ∧
  (∀ r t', update (mkPartial None None (Some "terminée") None) api = (r, t') →
           color_matches_status t') ∧
  (∀ t, fromJSON e0 documentation_record = Ok t → color_matches_status t).
Proof.
  destruct (color_follows_status e0) as (Hnew&Hupdate&HfromJSON&_).
  assert (color_matches_status api) as Hapi.
  { apply (Hnew " Créer une API REST " (Some "Développer une API ")
             (Some "à faire") (Some "haute")).
    vm_compute. reflexivity. }
  split; [exact Hapi|]. split.
  - intros r t'. apply Hupdate, Hapi.
  - intros t Ht. apply (HfromJSON _ _ Ht). reflexivity.
Defined.

(** C2, counterexample: the record supplies a title and a status outside
    the closed set; [update] throws and the title is changed. *)
Lemma update_invalid_status_changes_title :
  p_status titre_et_statut = Some "annulée" ∧ ("annulée" ∉ validStatuses) ∧
  update titre_et_statut api
    = (Throw (Error msg_status), set_title "API GraphQL" api) ∧
  title (set_title "API GraphQL" api) ≠ title api ∧
  ¬ ∃ x, update titre_et_statut api = (Throw x, api).
Proof.
  split; [done|]. split; [compute_done|]. split; [vm_compute; reflexivity|].
  split; [done|]. intros [x Hx]. vm_compute in Hx. discriminate.
Qed.

Lemma update_invalid_status_witness :
  p_status titre_et_statut = Some "annulée" ∧ ("annulée" ∉ validStatuses) ∧
  ∃ msg t',
    update titre_et_statut api = (Throw (Error msg), t') ∧
    status t' = status api ∧ priority t' = priority api ∧ color t' = color api.
Proof.
  assert ("annulée" ∉ validStatuses) as Hout by compute_done.
  split; [reflexivity|]. split; [exact Hout|].
  destruct (update_invalid_status titre_et_statut api "annulée" eq_refl Hout)
    as (msg&t'&Hu&_&Hs&Hp&_&Hc&_).
  exists msg, t'. auto.
Defined.

(** C3, counterexample: [documentation] is the task that [fromJSON] builds
    from a record whose createdAt is not a date; [toJSON] throws on it. *)
Lemma toJSON_throws_on_invalid_date :
  fromJSON e0 documentation_record = Ok documentation ∧
  well_formed documentation ∧
  toJSON documentation = Throw RangeError ∧
  toJSON documentation ≫= fromJSON e0 ≠ Ok documentation.
Proof.
  split; [vm_compute; reflexivity|]. split.
  { repeat split; try (vm_compute; reflexivity). compute_done. }
  split; [reflexivity|done].
Qed.

Lemma fromJSON_toJSON_witness :
  well_formed api ∧ createdAt api = Valid 1700000000321 ∧
  Date_of_string (iso_of_ms 1700000000321) = Valid 1700000000321 ∧
  toJSON api ≫= fromJSON e0 = Ok api.
Proof.
  assert (well_formed api) as Hwf.
  { repeat split; try (vm_compute; reflexivity). compute_done. }
  assert (Date_of_string (iso_of_ms 1700000000321) = Valid 1700000000321) as Hiso
    by (vm_compute; reflexivity).
  split; [exact Hwf|]. split; [reflexivity|]. split; [exact Hiso|].
  exact (fromJSON_toJSON e0 api 1700000000321 Hwf eq_refl Hiso).
Defined.

(** C9, counterexample: two tasks built on the same reading of the clock
    and the same random draw have the same id. *)
Lemma Task_new_same_id :
  ∃ t t',
    Task_new e0 "Tests unitaires" None None None = Ok t ∧
    Task_new e0 "Documentation" None None None = Ok t' ∧
    t ≠ t' ∧ id t = id t'.
Proof.
  eexists _, _. split; [vm_compute; reflexivity|].
  split; [vm_compute; reflexivity|]. split; [discriminate|reflexivity].
Qed.

Lemma Task_new_title_and_id_witness :
  trim "" = "" ∧
  Task_new e0 "   " None None None = Throw (Error msg_title) ∧
  ∃ t, Task_new e0 " Tests unitaires " None None None = Ok t ∧ id t = generateId e0.
Proof.
  assert (trim "" = "") as Hempty by (vm_compute; reflexivity).
  destruct (Task_new_title_and_id e0 "   " None None None Hempty) as [Hblank _].
  destruct (Task_new_title_and_id e0 " Tests unitaires " None None None Hempty)
    as [_ Hok].
  split; [exact Hempty|]. split.
  - apply Hblank. right. vm_compute. reflexivity.
  - destruct Hok as (t&Ht&Hid&_).
    + vm_compute. discriminate.
    + compute_done.
    + by exists t.
Defined.

Lemma priority_not_validated_witness :
  (∃ t', Task_new e0 "Tests unitaires" None (Some "en cours") (Some "urgente") = Ok t'
         ∧ priority t' = "urgente") ∧
  ∃ t'',
    update (mkPartial None None None (Some "urgente")) api = (Ok tt, t'') ∧
    priority api = "haute" ∧ priority t'' = "urgente" ∧ title t'' = title api.
Proof.
  destruct (priority_not_validated e0 "Tests unitaires" None "en cours" "urgente"
              (mkPartial None None None None) api) as (Hnew&Hupdate&_).
  split.
  - apply Hnew. vm_compute. reflexivity.
  - destruct (Hupdate api) as (t''&Hu&_&Hp&_&Ht&_); [vm_compute; reflexivity|].
    exists t''. split; [exact Hu|]. split; [reflexivity|]. split; [exact Hp|exact Ht].
Defined.

(** ** TaskManager *)

(** C4, counterexample: one of the three tasks has an Invalid Date; the
    view is not in descending order, [deploiement] comes before [tests],
    which is more recent.  No order of the three tasks is descending, as the
    Invalid Date compares with no date. *)
Lemma getFilteredTasks_invalid_date :
  let w := world [deploiement; documentation; tests] termines None in
  ∃ l w',
    getFilteredTasks w = (Ok l, w') ∧
    array w' l = [deploiement; documentation; tests] ∧
    createdAt deploiement = Valid 1700000000500 ∧
    createdAt tests = Valid 1700000000900 ∧
    ¬ StronglySorted not_older (array w' l) ∧
    ∀ l', l' ≡ₚ [deploiement; documentation; tests] → ¬ StronglySorted not_older l'.
Proof.
  eexists _, _. split; [vm_compute; reflexivity|].
  match goal with
  | |- ?a = _ ∧ _ =>
      assert (a = [deploiement; documentation; tests]) as ->
        by (vm_compute; reflexivity)
  end.
  split; [done|]. split; [done|]. split; [done|].
  assert (∀ l', l' ≡ₚ [deploiement; documentation; tests] →
                ¬ StronglySorted not_older l') as Hany; [|by split; [apply Hany|]].
  intros l' Hperm Hsorted.
  assert (documentation ∈ l') as (l1&l2&->)%list_elem_of_split.
  { rewrite Hperm. set_solver. }
  apply StronglySorted_app in Hsorted as (Hcross&_&Htail).
  apply StronglySorted_cons in Htail as [Hafter _].
  destruct l2 as [|t2 l2].
  - destruct l1 as [|t1 l1].
    + apply Permutation_length in Hperm. discriminate.
    + assert (not_older t1 documentation) as Habs
        by (apply Hcross; set_solver).
      unfold not_older in Habs. simpl in Habs. by destruct (createdAt t1).
  - apply Forall_cons in Hafter as [Habs _]. exact Habs.
Qed.

Lemma getFilteredTasks_done_newest_first_witness :
  let w := world [api; deploiement; design; tests] termines None in
  returns getFilteredTasks w (λ l w',
    array w' l ≡ₚ [deploiement; tests] ∧
    Forall (λ task, status task = "terminée") (array w' l) ∧
    StronglySorted not_older (array w' l)).
Proof.
  apply (getFilteredTasks_done_newest_first
           (world [api; deploiement; design; tests] termines None));
    try reflexivity.
  repeat constructor; discriminate.
Defined.

(** C5, counterexample: two tasks have the id of [api]; two calls of
    [reorderTasks] with that id and the id of [design] do not give back the
    order. *)
Lemma reorderTasks_twice_duplicate_id :
  let w := world [api; api_copy; design] (manager "date-desc") None in
  id api = id api_copy ∧ id api ≠ id design ∧
  ∃ w1 w2,
    reorderTasks (id api) (id design) w = (Ok tt, w1) ∧
    reorderTasks (id api) (id design) w1 = (Ok tt, w2) ∧
    array w2 (tasks (this w2)) = [api_copy; design; api] ∧
    array w2 (tasks (this w2)) ≠ array w (tasks (this w)).
Proof.
  split; [done|]. split; [done|].
  eexists _, _. split; [vm_compute; reflexivity|].
  split; [vm_compute; reflexivity|]. split; [vm_compute; reflexivity|].
  vm_compute. discriminate.
Qed.

Lemma reorderTasks_involution_witness :
  let w := world [api; design; tests] (manager "date-desc") None in
  id api ≠ id tests ∧
  returns (reorderTasks (id api) (id tests)) w (λ _ w1,
    currentSort (this w1) = "manual" ∧
    returns (reorderTasks (id api) (id tests)) w1 (λ _ w2,
      currentSort (this w2) = "manual" ∧
      tasks (this w2) = tasks (this w) ∧
      array w2 (tasks (this w2)) = [api; design; tests])).
Proof.
  split; [done|].
  apply (reorderTasks_involution (id api) (id tests)
           (world [api; design; tests] (manager "date-desc") None)).
  - done.
  - exists 0%nat, api. repeat split.
    intros [|[|[|k]]] t' Hk Hid; vm_compute in Hk; by simplify_eq.
  - exists 2%nat, tests. repeat split.
    intros [|[|[|k]]] t' Hk Hid; vm_compute in Hk; by simplify_eq.
Defined.

(** The method [reorderTasks] alone, with twice the id of a task that is
    present, sets the sort key to ['manual'] and writes the storage; the
    [drop] handler never makes this call. *)
Lemma reorderTasks_equal_ids :
  let w := world [api; design] (manager "date-desc") None in
  ∃ w',
    reorderTasks (id api) (id api) w = (Ok tt, w') ∧
    currentSort (this w) = "date-desc" ∧ currentSort (this w') = "manual" ∧
    localStorage w = None ∧ localStorage w' ≠ None ∧
    w' ≠ w.
Proof.
  eexists. split; [vm_compute; reflexivity|]. by repeat split.
Qed.

Lemma reorderTasks_effect_witness :
  let w := world [api; design; tests] (manager "date-desc") None in
  onDrop (id api) (Some (id tests)) w = reorderTasks (id api) (id tests) w ∧
  reorderTasks "task_0" (id api) w = (Ok tt, w) ∧
  onDrop "task_0" (Some (id api)) w = (Ok tt, w) ∧
  returns (reorderTasks (id api) (id tests)) w (λ _ w',
    array w' (tasks (this w')) = [tests; design; api] ∧
    currentSort (this w') = "manual") ∧
  onDrop (id api) (Some (id api)) w = (Ok tt, w).
Proof.
  destruct (reorderTasks_effect "task_0" (id api)
              (world [api; design; tests] (manager "date-desc") None))
    as (_&Habsent&_).
  destruct (reorderTasks_effect (id api) (id tests)
              (world [api; design; tests] (manager "date-desc") None))
    as (Hcall&_&Hfound&_).
  destruct (reorderTasks_effect (id api) (id api)
              (world [api; design; tests] (manager "date-desc") None))
    as (_&_&_&Hdrop).
  assert (id api ≠ id tests) as Hne by discriminate.
  destruct Habsent as [Hre Hhandler]; [left; repeat constructor; discriminate|].
  split; [apply Hcall; [discriminate|discriminate|exact Hne]|].
  split; [exact Hre|]. split; [exact Hhandler|]. split; [|exact Hdrop].
  eapply returns_mono.
  - apply (Hfound 0%nat 2%nat api tests Hne); vm_compute; reflexivity.
  - intros [] w' (Hthis&Harray&_). split; [exact Harray|]. by rewrite Hthis.
Defined.

(** [load] on a manager that holds a task, with nothing stored, assigns
    nothing; the constructor calls [load] on the empty collection of the
    field initializers, and no other code calls it. *)
Lemma load_nothing_stored :
  let w := world [api] (manager "date-desc") None in
  localStorage w = None ∧
  load e0 w = (Ok tt, w) ∧
  array w (tasks (this w)) = [api] ∧ array w (tasks (this w)) ≠ [].
Proof. by repeat split. Qed.

Lemma load_never_throws_witness :
  let w := world [api] (manager "date-desc") (Some "pas du JSON") in
  (∃ w', load e0 w = (Ok tt, w') ∧ array w' (tasks (this w')) = []) ∧
  returns (TaskManager_fields;;; load e0)%js (world [api] (manager "manual") None)
    (λ _ w', array w' (tasks (this w')) = []).
Proof.
  destruct (load_never_throws e0
              (world [api] (manager "date-desc") (Some "pas du JSON")))
    as [(w'&Hload&_&Hthrow&_) _].
  destruct (load_never_throws e0 (world [api] (manager "manual") None))
    as [_ Hnew].
  split.
  - exists w'. split; [exact Hload|].
    apply (Hthrow "pas du JSON" SyntaxError); [reflexivity|discriminate|].
    vm_compute. reflexivity.
  - eapply returns_mono; [exact Hnew|].
    intros [] w1 Hempty. apply Hempty. exact I.
Defined.

Lemma views_leave_tasks_witness :
  let w := world [api; deploiement; design; tests] (manager "title-asc") None in
  tasks (this w) ∈ dom (heap w) ∧
  returns getFilteredTasks w (λ l w',
    l ≠ tasks (this w) ∧
    heap w' !! tasks (this w) = Some [api; deploiement; design; tests] ∧
    localStorage w' = None) ∧
  returns (search "API") w (λ l w',
    heap w' !! tasks (this w) = Some [api; deploiement; design; tests] ∧
    currentSearch (this w') = "api").
Proof.
  assert (tasks (this (world [api; deploiement; design; tests]
                         (manager "title-asc") None))
          ∈ dom (heap (world [api; deploiement; design; tests]
                         (manager "title-asc") None))) as Hdom by compute_done.
  destruct (views_leave_tasks _ Hdom) as (Hview&_&Hsearch).
  split; [exact Hdom|]. split.
  - eapply returns_mono; [exact Hview|].
    intros l w' (Hl&_&Hheap&Hstorage&_). split; [exact Hl|].
    split; [rewrite Hheap; reflexivity|exact Hstorage].
  - eapply returns_mono; [exact (Hsearch "API")|].
    intros l w' (_&Hthis&Hheap&_).
    split; [rewrite Hheap; reflexivity|by rewrite Hthis].
Defined.

(** ** The further properties on concrete inputs *)

(** X1, witness: a new title and a new priority for [api]. *)
Lemma update_frame_witness :
  let pd := mkPartial (Some "  API GraphQL ") None None (Some "basse") in
  let t' := set_priority "basse" (set_title "API GraphQL" api) in
  update pd api = (Ok tt, t') ∧
  id t' = id api ∧ createdAt t' = createdAt api ∧
  (p_title pd = None → title t' = title api) ∧
  (p_description pd = None → description t' = description api) ∧
  (p_status pd = None → status t' = status api ∧ color t' = color api) ∧
  (p_priority pd = None → priority t' = priority api).
Proof.
  intros pd t'.
  assert (update pd api = (Ok tt, t')) as H by (vm_compute; reflexivity).
  split; [exact H|]. exact (update_frame pd api (Ok tt) t' H).
Defined.

(** X2, witness: the record of C2, rejected twice in the same way. *)
Lemma update_idempotent_witness :
  let t' := set_title "API GraphQL" api in
  update titre_et_statut api = (Throw (Error msg_status), t') ∧
  update titre_et_statut t' = (Throw (Error msg_status), t').
Proof.
  intros t'.
  assert (update titre_et_statut api = (Throw (Error msg_status), t')) as H
    by (vm_compute; reflexivity).
  split; [exact H|]. exact (update_idempotent titre_et_statut api _ t' H).
Defined.

(** X3, witness: the record whose date is not a date is accepted. *)
Lemma fromJSON_checks_witness :
  blank (d_title documentation_record) = false ∧
  d_status documentation_record ∈ validStatuses ∧
  fromJSON e0 documentation_record = Ok documentation.
Proof.
  assert (blank (d_title documentation_record) = false) as Hb
    by (vm_compute; reflexivity).
  assert (d_status documentation_record ∈ validStatuses) as Hs by compute_done.
  split; [exact Hb|]. split; [exact Hs|].
  destruct (fromJSON_checks e0 documentation_record) as (_&_&H).
  rewrite (H Hb Hs). vm_compute. reflexivity.
Defined.

(** X4, witness: two tasks built with the same status. *)
Lemma getColorByStatus_closed_set_witness :
  let t := mkTask (generateId e0) "Tests unitaires" "" "terminée" "moyenne"
             (Valid (new_Date e0)) (Some "#27ae60") in
  let t' := mkTask (generateId e0) "Documentation" "" "terminée" "basse"
              (Valid (new_Date e0)) (Some "#27ae60") in
  Task_new e0 "Tests unitaires" None (Some "terminée") None = Ok t ∧
  Task_new e0 "Documentation" None (Some "terminée") (Some "basse") = Ok t' ∧
  is_Some (color t) ∧ (color t = color t' ↔ status t = status t').
Proof.
  intros t t'.
  assert (Task_new e0 "Tests unitaires" None (Some "terminée") None = Ok t) as H1
    by (vm_compute; reflexivity).
  assert (Task_new e0 "Documentation" None (Some "terminée") (Some "basse") = Ok t')
    as H2 by (vm_compute; reflexivity).
  split; [exact H1|]. split; [exact H2|].
  exact (proj2 (proj2 getColorByStatus_closed_set) _ _ _ _ _ _ _ _ _ _ _ _ H1 H2).
Defined.

(** X7, witness: [tests] is added to [api; design] and removed again. *)
Lemma add_then_remove_witness :
  let w := world [api; design] (manager "date-desc") None in
  Forall (λ t, id t ≠ id tests) (collection w) ∧
  returns (add tests;;; remove (id tests))%js w (λ r w',
    r = true ∧ committed (collection w) w w').
Proof.
  intros w.
  assert (Forall (λ t, id t ≠ id tests) (collection w)) as H
    by (by repeat constructor).
  split; [exact H|]. exact (add_then_remove tests w H).
Defined.

(** X8, witness: [api_copy] has the id of [api], so that the id is still
    found after [api] is removed. *)
Lemma remove_then_findById_witness :
  let w := world [api; api_copy; design] (manager "date-desc") None in
  list_find (λ task, id task = id api) (collection w) = Some (0%nat, api) ∧
  returns (remove (id api);;; findById (id api))%js w (λ found w',
    found = list_find (λ task, id task = id api) (delete 0%nat (collection w)) ∧
    (found = None ↔ exactly_one (id api) (collection w))).
Proof.
  intros w.
  assert (list_find (λ task, id task = id api) (collection w) = Some (0%nat, api))
    as H by reflexivity.
  split; [exact H|]. exact (remove_then_findById (id api) w 0%nat api H).
Defined.

(** X10, witness: the record of C2 on the manager. *)
Lemma TaskManager_update_rejected_status_witness :
  let w := world [api; design] (manager "date-desc") (Some "[]") in
  list_find (λ task, id task = id api) (collection w) = Some (0%nat, api) ∧
  title_rejected titre_et_statut = false ∧
  status_rejected titre_et_statut = true ∧
  ∃ w',
    TaskManager_update (id api) titre_et_statut w = (Ok false, w') ∧
    this w' = this w ∧ localStorage w' = Some "[]" ∧
    collection w' = [set_title "API GraphQL" api; design].
Proof.
  intros w.
  assert (list_find (λ task, id task = id api) (collection w) = Some (0%nat, api))
    as Hf by reflexivity.
  assert (title_rejected titre_et_statut = false) as Ht by (vm_compute; reflexivity).
  assert (status_rejected titre_et_statut = true) as Hs by (vm_compute; reflexivity).
  split; [exact Hf|]. split; [exact Ht|]. split; [exact Hs|].
  destruct (TaskManager_update_rejected_status (id api) titre_et_statut w 0%nat api
              Hf Ht Hs) as (w'&Hrun&Hthis&Hstored&Hc).
  exists w'. split; [exact Hrun|]. split; [exact Hthis|]. split; [exact Hstored|].
  rewrite Hc. vm_compute. reflexivity.
Defined.

(** X11, witness: [documentation] has an invalid date. *)
Lemma invalid_date_blocks_save_witness :
  let w := world [api; documentation] (manager "date-desc") (Some "[]") in
  documentation ∈ collection w ∧ createdAt documentation = Invalid ∧
  save w = (Ok tt, w) ∧
  returns (add design) w (λ _ w',
    collection w' = [api; documentation; design] ∧ localStorage w' = Some "[]").
Proof.
  intros w.
  assert (documentation ∈ collection w) as Hin by (right; left).
  split; [exact Hin|]. split; [reflexivity|].
  exact (invalid_date_blocks_save documentation design w Hin eq_refl).
Defined.

(** X12, witness: one task to do, one in progress and two done. *)
Lemma getStats_counts_witness :
  let w := world [api; design; deploiement; tests] (manager "date-desc") None in
  Forall (λ t, status t ∈ validStatuses) (collection w) ∧
  returns getStats w (λ stats w',
    w' = w ∧ stats !! "all" = Some 4 ∧
    stats !! "à faire" = Some 1 ∧ stats !! "en cours" = Some 1 ∧
    stats !! "terminée" = Some 2 ∧ stats !! "bloquée" = Some 0).
Proof.
  intros w.
  assert (Forall (λ t, status t ∈ validStatuses) (collection w)) as H.
  { repeat constructor; compute_done. }
  split; [exact H|].
  eapply returns_mono; [exact (getStats_counts w H)|].
  intros stats w' (Hw&Hall&Hst&_). split; [exact Hw|]. split; [exact Hall|].
  rewrite !Hst by compute_done. repeat split.
Defined.

(** X13, witness: [api] and [design] are saved and read back. *)
Lemma save_then_load_witness :
  let w := world [api; design] (manager "date-desc") None in
  let tasksData :=
    match map_result toJSON [api; design] with Ok d => d | Throw _ => [] end in
  Forall well_formed (collection w) ∧
  map_result toJSON (collection w) = Ok tasksData ∧
  JSON_stringify tasksData ≠ "" ∧
  JSON_parse (JSON_stringify tasksData) = Ok tasksData ∧
  returns (save;;; load e0)%js w (λ _ w',
    collection w' = [api; design] ∧
    localStorage w' = Some (JSON_stringify tasksData)).
Proof.
  intros w tasksData.
  assert (Forall well_formed (collection w)) as Hwf.
  { repeat constructor; try (vm_compute; reflexivity); compute_done. }
  assert (map_result toJSON (collection w) = Ok tasksData) as Hjson
    by (vm_compute; reflexivity).
  assert (∀ t ms, t ∈ collection w → createdAt t = Valid ms →
                  Date_of_string (iso_of_ms ms) = Valid ms) as Hdate.
  { intros t ms Ht Hms. apply ReferenceFacts.Date_of_string_iso_of_ms.
    apply elem_of_cons in Ht as [->|Ht]; [|apply elem_of_cons in Ht as [->|Ht]].
    - injection Hms as <-. lia.
    - injection Hms as <-. lia.
    - inversion Ht. }
  assert (JSON_stringify tasksData ≠ "") as Hne by (vm_compute; discriminate).
  assert (JSON_parse (JSON_stringify tasksData) = Ok tasksData) as Hparse
    by (vm_compute; reflexivity).
  split; [exact Hwf|]. split; [exact Hjson|]. split; [exact Hne|].
  split; [exact Hparse|].
  eapply returns_mono; [exact (save_then_load e0 w tasksData Hwf Hjson Hdate Hne Hparse)|].
  intros [] w' (Hc&Hs&_). split; [exact Hc|exact Hs].
Defined.

(** X14, witness: a manager built on a storage that holds the empty array
    has the six samples. *)
Lemma TaskManager_new_never_empty_witness :
  let w := mkWorld ∅ (manager "manual") (Some "[]") in
  let es := λ k, mkEnv (1700000000000 + Z.of_nat k) "0.4fzyo82mvyr" 1700000000321 in
  Forall (λ ttl, blank ttl = false) sample_titles ∧
  returns (TaskManager_new e0 es) w (λ _ w',
    collection w' ≠ [] ∧ currentSort (this w') = "date-desc" ∧
    samples es (collection w')).
Proof.
  intros w es.
  assert (Forall (λ ttl, blank ttl = false) sample_titles) as H.
  { repeat constructor; vm_compute; reflexivity. }
  split; [exact H|].
  eapply returns_mono; [exact (TaskManager_new_never_empty e0 es w H)|].
  intros [] w' (Hne&Hthis&Hl). split; [exact Hne|]. split; [by rewrite Hthis|].
  assert (loaded e0 (localStorage w) = Some []) as Hloaded by (vm_compute; reflexivity).
  rewrite Hloaded in Hl. exact (proj1 Hl).
Defined.

(** X15, witness: the collection [api; design] is cleared, and the next
    manager has the samples. *)
Lemma clearAll_then_new_witness :
  let w := world [api; design] (manager "title-asc") None in
  let es := λ k, mkEnv (1700000000000 + Z.of_nat k) "0.4fzyo82mvyr" 1700000000321 in
  Forall (λ ttl, blank ttl = false) sample_titles ∧
  JSON_parse (JSON_stringify []) = Ok [] ∧
  returns clearAll w (λ _ w1,
    collection w1 = [] ∧ localStorage w1 = Some "[]" ∧
    currentSort (this w1) = "title-asc" ∧
    returns (TaskManager_new e0 es) w1 (λ _ w', samples es (collection w'))).
Proof.
  intros w es.
  assert (Forall (λ ttl, blank ttl = false) sample_titles) as H.
  { repeat constructor; vm_compute; reflexivity. }
  assert (JSON_parse (JSON_stringify []) = Ok []) as Hparse by (vm_compute; reflexivity).
  split; [exact H|]. split; [exact Hparse|].
  eapply returns_mono; [exact (clearAll_then_new e0 es w H Hparse)|].
  intros [] w1 (Hc&Hs&_&_&Hsort&Hnew). split; [exact Hc|].
  split; [rewrite Hs; vm_compute; reflexivity|]. split; [exact Hsort|exact Hnew].
Defined.

(** X17, witness: [api] is dropped on [tests]. *)
Lemma reorderTasks_then_view_witness :
  let w := world [api; design; tests] (manager "date-desc") None in
  list_find (λ task, id task = id api) (collection w) = Some (0%nat, api) ∧
  list_find (λ task, id task = id tests) (collection w) = Some (2%nat, tests) ∧
  returns (reorderTasks (id api) (id tests);;; getFilteredTasks)%js w (λ l w',
    array w' l = [tests; design; api] ∧ collection w' = [tests; design; api]).
Proof.
  intros w.
  assert (list_find (λ task, id task = id api) (collection w) = Some (0%nat, api))
    as Hi by reflexivity.
  assert (list_find (λ task, id task = id tests) (collection w) = Some (2%nat, tests))
    as Hj by reflexivity.
  split; [exact Hi|]. split; [exact Hj|].
  exact (reorderTasks_then_view (id api) (id tests) w 0%nat 2%nat api tests
           Hi Hj eq_refl eq_refl).
Defined.

(** X19, witness: two high, one medium and one low priority. *)
Lemma sortByPriority_sorted_witness :
  let w := world [design; api; api_copy; tests] (manager "date-desc") None in
  allocated w ∧
  Forall (λ t, priority t ∈ validPriorities) (collection w) ∧
  returns (sortByPriority None) w (λ l w', array w' l = [api; tests; design; api_copy]) ∧
  returns (sortByPriority (Some "asc")) w (λ l w',
    array w' l = [api_copy; design; api; tests]).
Proof.
  intros w.
  assert (allocated w) as Ha by compute_done.
  assert (Forall (λ t, priority t ∈ validPriorities) (collection w)) as Hp.
  { repeat constructor; compute_done. }
  split; [exact Ha|]. split; [exact Hp|].
  destruct (sortByPriority_sorted w Ha Hp) as [Hdesc Hasc]. split.
  - destruct (Hdesc None (or_introl eq_refl)) as (l&w'&Hrun&_).
    exists l, w'. split; [exact Hrun|].
    vm_compute in Hrun. injection Hrun as <- <-. vm_compute. reflexivity.
  - destruct Hasc as (l&w'&Hrun&_).
    exists l, w'. split; [exact Hrun|].
    vm_compute in Hrun. injection Hrun as <- <-. vm_compute. reflexivity.
Defined.

(** X20, witness: [api] and [tests] have the same priority. *)
Lemma getFilteredTasks_stable_witness :
  let w := world [design; api; api_copy; tests] (manager "priority-asc") None in
  currentSort (this w) ∈ (date_keys ++ priority_keys)%list ∧
  Forall (λ t, sort_key (currentSort (this w)) t ≠ NaN)
    (selection (this w) (collection w)) ∧
  returns getFilteredTasks w (λ l w',
    filter (λ t, sort_key "priority-asc" t = Num 3) (array w' l) = [api; tests]).
Proof.
  intros w.
  assert (currentSort (this w) ∈ (date_keys ++ priority_keys)%list) as H by compute_done.
  assert (Forall (λ t, sort_key (currentSort (this w)) t ≠ NaN)
            (selection (this w) (collection w))) as Hranked.
  { assert (selection (this w) (collection w) = [design; api; api_copy; tests]) as ->
      by (vm_compute; reflexivity).
    repeat constructor; vm_compute; discriminate. }
  split; [exact H|]. split; [exact Hranked|].
  eapply returns_mono; [exact (getFilteredTasks_stable w H Hranked)|].
  intros l w' Hstable. etrans; [exact (Hstable (Num 3))|]. vm_compute. reflexivity.
Defined.

(** X21, witness: [design] is in progress. *)
Lemma quickEditStatus_cycle_witness :
  let w := world [api; design] (manager "date-desc") None in
  status design ∈ validStatuses ∧
  returns (quickEditStatus (id design)) w (λ _ w',
    collection w' = [api; with_status "terminée" design]) ∧
  returns (quickEditStatus (id design);;; quickEditStatus (id design);;;
           quickEditStatus (id design);;; quickEditStatus (id design))%js w
    (λ _ w', this w' = this w ∧ collection w' = [api; design]).
Proof.
  intros w.
  assert (status design ∈ validStatuses) as Hvalid by compute_done.
  split; [exact Hvalid|].
  pose proof (quickEditStatus_cycle (id design) w) as H.
  assert (list_find (λ t, id t = id design) (collection w) = Some (1%nat, design))
    as Hf by reflexivity.
  rewrite Hf in H. destruct H as [Hstep Hcycle]. split.
  - eapply returns_mono; [exact Hstep|]. by intros [] w' (_&_&->&_).
  - eapply returns_mono; [exact (Hcycle Hvalid)|]. by intros [] w' (->&->).
Defined.

(** X22, witness: [design] has the medium priority. *)
Lemma quickEditPriority_cycle_witness :
  let w := world [api; design] (manager "date-desc") None in
  priority design ∈ validPriorities ∧
  returns (quickEditPriority (id design)) w (λ _ w',
    collection w' = [api; set_priority "haute" design]) ∧
  returns (quickEditPriority (id design);;; quickEditPriority (id design);;;
           quickEditPriority (id design))%js w
    (λ _ w', this w' = this w ∧ collection w' = [api; design]).
Proof.
  intros w.
  assert (priority design ∈ validPriorities) as Hvalid by compute_done.
  split; [exact Hvalid|].
  pose proof (quickEditPriority_cycle (id design) w) as H.
  assert (list_find (λ t, id t = id design) (collection w) = Some (1%nat, design))
    as Hf by reflexivity.
  rewrite Hf in H. destruct H as [Hstep Hcycle]. split.
  - eapply returns_mono; [exact Hstep|]. by intros [] w' (_&_&->&_).
  - eapply returns_mono; [exact (Hcycle Hvalid)|]. by intros [] w' (->&->).
Defined.

(** X23, witness: the sort key ['status-asc'] has no case. *)
Lemma getFilteredTasks_other_key_witness :
  let w := world [tests; api; design] (manager "date-desc") None in
  ("status-asc" ∉ sort_keys) ∧ allocated w ∧
  returns (onSortChange "status-asc";;; getFilteredTasks)%js w (λ l w',
    currentSort (this w') = "status-asc" ∧ array w' l = [tests; api; design]).
Proof.
  intros w.
  assert ("status-asc" ∉ sort_keys) as Hk by compute_done.
  assert (allocated w) as Ha by compute_done.
  split; [exact Hk|]. split; [exact Ha|].
  exact (proj2 (getFilteredTasks_other_key "status-asc" w Hk) Ha).
Defined.

(** X25, witness: the four statuses of [api; design; deploiement; tests]. *)
Lemma statuses_stay_valid_witness :
  let w := world [api; design; deploiement; tests] (manager "date-desc") None in
  Forall (λ t, status t ∈ validStatuses) (collection w) ∧
  returns (TaskManager_update (id api) titre_et_statut) w (λ _ w',
    Forall (λ t, status t ∈ validStatuses) (collection w')) ∧
  returns (quickEditStatus (id tests)) w (λ _ w',
    Forall (λ t, status t ∈ validStatuses) (collection w')).
Proof.
  intros w.
  assert (Forall (λ t, status t ∈ validStatuses) (collection w)) as H.
  { repeat constructor; compute_done. }
  split; [exact H|].
  destruct (statuses_stay_valid w H) as (_&Hupdate&_&_&Hquick&_).
  split; [exact (Hupdate (id api) titre_et_statut)|exact (Hquick (id tests))].
Defined.

(** X26, witness: [api] gets a new title and the status en cours. *)
Lemma TaskManager_update_then_findById_witness :
  let w := world [api; design] (manager "date-desc") None in
  let pd := mkPartial (Some "API GraphQL") None (Some "en cours") None in
  let task' := with_status "en cours" (set_title "API GraphQL" api) in
  list_find (λ t, id t = id api) (collection w) = Some (0%nat, api) ∧
  update pd api = (Ok tt, task') ∧
  returns (TaskManager_update (id api) pd;;; findById (id api))%js w (λ found w',
    found = Some (0%nat, task') ∧ collection w' = [task'; design]).
Proof.
  intros w pd task'.
  assert (list_find (λ t, id t = id api) (collection w) = Some (0%nat, api))
    as Hf by reflexivity.
  assert (update pd api = (Ok tt, task')) as Hu by (vm_compute; reflexivity).
  split; [exact Hf|]. split; [exact Hu|].
  eapply returns_mono;
    [exact (TaskManager_update_then_findById (id api) pd w 0%nat api task' Hf Hu)|].
  intros found w' (Hfound&_&_&Hc&_). split; [exact Hfound|exact Hc].
Defined.

(** X27, witness: four tasks with four dates. *)
Lemma sortByDate_sorted_witness :
  let w := world [design; tests; api; deploiement] (manager "manual") None in
  allocated w ∧
  Forall (λ t, createdAt t ≠ Invalid) (collection w) ∧
  returns (sortByDate None) w (λ l w',
    array w' l = [tests; deploiement; design; api]) ∧
  returns (sortByDate (Some "asc")) w (λ l w',
    array w' l = [api; design; deploiement; tests]).
Proof.
  intros w.
  assert (allocated w) as Ha by compute_done.
  assert (Forall (λ t, createdAt t ≠ Invalid) (collection w)) as Hd.
  { by repeat constructor. }
  split; [exact Ha|]. split; [exact Hd|].
  destruct (sortByDate_sorted w Ha Hd) as [Hdesc Hasc]. split.
  - destruct (Hdesc None (or_introl eq_refl)) as (l&w'&Hrun&_).
    exists l, w'. split; [exact Hrun|].
    vm_compute in Hrun. injection Hrun as <- <-. vm_compute. reflexivity.
  - destruct Hasc as (l&w'&Hrun&_).
    exists l, w'. split; [exact Hrun|].
    vm_compute in Hrun. injection Hrun as <- <-. vm_compute. reflexivity.
Defined.

(** The comparison of the reference runtime is a total preorder. *)
Lemma Reference_compare_trans a b c :
  String.compare a b ≠ Gt → String.compare b c ≠ Gt → String.compare a c ≠ Gt.
Proof.
  revert b c. induction a as [|x a IH]; intros [|y b] [|z c]; simpl; try done.
  unfold Ascii.compare.
  destruct (N.compare_spec (N_of_ascii x) (N_of_ascii y)) as [Hxy|Hxy|Hxy];
    destruct (N.compare_spec (N_of_ascii y) (N_of_ascii z)) as [Hyz|Hyz|Hyz];
    destruct (N.compare_spec (N_of_ascii x) (N_of_ascii z)) as [Hxz|Hxz|Hxz];
    try done; try lia.
  apply IH.
Qed.

Lemma Reference_localeCompare_total a b :
  localeCompare a b ≤ 0 ∨ localeCompare b a ≤ 0.
Proof.
  simpl. unfold Reference.localeCompare. rewrite (String.compare_antisym a b).
  destruct (String.compare b a); simpl; lia.
Qed.

Lemma Reference_localeCompare_trans a b c :
  localeCompare a b ≤ 0 → localeCompare b c ≤ 0 → localeCompare a c ≤ 0.
Proof.
  simpl. unfold Reference.localeCompare. intros Hab Hbc.
  pose proof (Reference_compare_trans a b c) as Htrans.
  destruct (String.compare a b), (String.compare b c), (String.compare a c);
    try done; exfalso; by apply Htrans.
Qed.

(** X28, witness: three titles whose first letters, C, D and T, differ. *)
Lemma sortByTitle_sorted_witness :
  let w := world [tests; design; api] (manager "manual") None in
  allocated w ∧
  returns (sortByTitle None) w (λ l w', array w' l = [api; design; tests]) ∧
  returns (sortByTitle (Some "desc")) w (λ l w', array w' l = [tests; design; api]).
Proof.
  intros w.
  assert (allocated w) as Ha by compute_done.
  split; [exact Ha|].
  destruct (sortByTitle_sorted w Ha Reference_localeCompare_total
              Reference_localeCompare_trans) as [Hasc Hdesc].
  split.
  - destruct (Hasc None (or_introl eq_refl)) as (l&w'&Hrun&_).
    exists l, w'. split; [exact Hrun|].
    vm_compute in Hrun. injection Hrun as <- <-. vm_compute. reflexivity.
  - destruct Hdesc as (l&w'&Hrun&_).
    exists l, w'. split; [exact Hrun|].
    vm_compute in Hrun. injection Hrun as <- <-. vm_compute. reflexivity.
Defined.
